(** * The Prism hook that marks ESLint reports in documentation examples

    A shallow embedding of the module of the documentation tools that exports
    [installPrismESLintMarkerHook] and [addContentMustBeMarked]: the token
    tree of Prism, the text of a token ([getTokenContent]), the splitter
    ([splitToken], [convertMarked]) and the [after-tokenize] hook with its
    module-level registration.

    The splitter is modelled twice.  On trees, a token is a value and the
    functions return the stream yielded; the assignments that the code makes
    to tokens show as the values returned.  On a store, tokens are objects
    and the assignments are writes: this is the model in which one can ask
    what a call does to the tokens it was given.  The store model refines
    the tree model: on a store that holds the trees with no object shared,
    the run returns, and the values it returns stand for the trees that the
    tree model gives. *)

From Stdlib Require Import ZArith List String Ascii Bool Lia.
Import ListNotations.

Open Scope string_scope.
Open Scope Z_scope.

(** ** JavaScript strings *)

Module JsString.

Fixpoint take (n : nat) (s : string) : string :=
  match n, s with
  | S n', String c s' => String c (take n' s')
  | _, _ => EmptyString
  end.

Fixpoint drop (n : nat) (s : string) : string :=
  match n, s with
  | S n', String _ s' => drop n' s'
  | _, _ => s
  end.

(** [s.length] *)
Definition len (s : string) : Z := Z.of_nat (String.length s).

(** Clamping of a relative index, as [String.prototype.slice] does for
    both of its arguments: a negative index counts from the end. *)
Definition clamp (l i : Z) : Z :=
  if i <? 0 then Z.max (l + i) 0 else Z.min i l.

(** [s.slice(b, e)] *)
Definition slice (s : string) (b e : Z) : string :=
  let from := clamp (len s) b in
  let to := clamp (len s) e in
  take (Z.to_nat (to - from)) (drop (Z.to_nat from) s).

(** [s.slice(b)] *)
Definition slice_from (s : string) (b : Z) : string :=
  drop (Z.to_nat (clamp (len s) b)) s.

(** [!s] is true exactly for the empty string. *)
Definition is_empty (s : string) : bool :=
  match s with EmptyString => true | _ => false end.

(** [l.join("")] *)
Definition join (l : list string) : string :=
  fold_right String.append EmptyString l.

End JsString.

Import JsString.

(** ** JavaScript numbers

    The offsets of a range are computed by [getIndexFromLoc] from a table
    lookup, which gives [NaN] when the line is not in the table; every other
    number of the hook is an integer. *)

Inductive num : Type :=
| NaN
| Num (z : Z).

Definition num_add (a b : num) : num :=
  match a, b with
  | Num x, Num y => Num (x + y)
  | _, _ => NaN
  end.

Definition num_sub (a b : num) : num :=
  match a, b with
  | Num x, Num y => Num (x - y)
  | _, _ => NaN
  end.

(** [a < b], [a <= b] and [a === b]: false as soon as one side is [NaN]. *)
Definition num_ltb (a b : num) : bool :=
  match a, b with
  | Num x, Num y => x <? y
  | _, _ => false
  end.

Definition num_leb (a b : num) : bool :=
  match a, b with
  | Num x, Num y => x <=? y
  | _, _ => false
  end.

Definition num_eqb (a b : num) : bool :=
  match a, b with
  | Num x, Num y => x =? y
  | _, _ => false
  end.

(** The integer an argument of [slice] stands for: [NaN] counts as 0. *)
Definition to_integer (a : num) : Z :=
  match a with
  | NaN => 0
  | Num x => x
  end.

(** ** Prism tokens *)

(** [alias] of a [Prism.Token]: [undefined], a string or an array of strings. *)
Inductive alias : Type :=
| AliasUndefined
| AliasStr (a : string)
| AliasArr (l : list string).

(** A token of a token stream is a string or a [Prism.Token] object with
    the fields [type], [content], [alias] and [length]; the content of a
    [Prism.Token] is a string, a single token or an array of tokens. *)
Inductive token : Type :=
| Str (s : string)
| Tok (type : string) (content : tcontent) (al : alias) (length : Z)
with tcontent : Type :=
| CStr (s : string)
| COne (t : token)
| CArr (ts : list token).

(** [new Prism.Token(type, content, alias)]: the constructor of prismjs sets
    [length] to the length of its fourth argument [matchedStr], 0 when there
    is none, and the hook never passes a fourth argument, so the tokens it
    builds have length 0.  The tokens of the tokenizer have the length of the
    text they were made from. *)
Definition newToken (type : string) (content : tcontent) (al : alias) : token :=
  Tok type content al 0.

(** [[tokens].flat()] *)
Definition flat (tokens : tcontent) : list token :=
  match tokens with
  | CStr s => [Str s]
  | COne t => [t]
  | CArr ts => ts
  end.

(** Truthiness of a token value: every object is truthy, of the strings only
    the empty one is falsy. *)
Definition truthy (t : token) : bool :=
  match t with
  | Str s => negb (is_empty s)
  | Tok _ _ _ _ => true
  end.

(** Truthiness of [string | Prism.Token | null]. *)
Definition truthy_opt (o : option token) : bool :=
  match o with
  | Some t => truthy t
  | None => false
  end.

Definition ESLINT_MARKED : string := "eslint-marked".
Definition ESLINT_MESSAGE : string := "eslint-message".
Definition ESLINT_MARKED_LINE_FEED : string := "eslint-marked-line-feed".
Definition LF : string := String (ascii_of_nat 10) EmptyString.

(** The carriage return: a line break that is no line feed. *)
Definition CR : string := String (ascii_of_nat 13) EmptyString.

(** [getTokenContent(token)] *)
Fixpoint getTokenContent (token : token) : string :=
  match token with
  | Str s => s
  | Tok type content _ _ =>
      if String.eqb type ESLINT_MESSAGE then EmptyString
      else match content with
           | CStr s => s
           | COne t => getTokenContent t
           | CArr ts => join (map getTokenContent ts)
           end
  end.

(** Text of a token stream. *)
Definition text (ts : list token) : string := join (map getTokenContent ts).

(** [token.length]: the length of a string, the [length] field of a
    [Prism.Token]. *)
Definition token_length (t : token) : Z :=
  match t with
  | Str s => len s
  | Tok _ _ _ l => l
  end.

(** A [Prism.Token] whose content is an array.  The [marked] field of the
    result of [splitToken] always is one: the fresh [eslint-marked] token, or
    the token given, once its content has been replaced by a fresh array. *)
Record array_token : Type := mkArrayToken {
  at_type : string;
  at_content : list token;
  at_alias : alias;
  at_length : Z
}.

Definition token_of (m : array_token) : token :=
  Tok (at_type m) (CArr (at_content m)) (at_alias m) (at_length m).

(** The object [{ before, marked, after }] returned by [splitToken]. *)
Record split_result : Type := mkSplit {
  before : option token;
  marked : array_token;
  after : option token
}.

(** A range [[start, end]] of offsets in the code. *)
Definition range : Type := (num * num)%type.

(** The message token, shown on hover. *)
Definition messageToken (message : string) : token :=
  newToken ESLINT_MESSAGE (CStr message) (AliasArr ["alert"]).

(** The second half of [splitToken], for a string and for a token with
    string content: [buildToken] rebuilds a token of the same kind, [content]
    is [getTokenContent(token)] and [tlen] is [token.length]. *)
Definition splitText (buildToken : string -> token) (content : string)
    (tlen : Z) (r : range) (message : string) (tokenStart : Z) : split_result :=
  let before :=
    if num_ltb (Num tokenStart) (fst r)
    then Some (buildToken
                 (slice content 0
                    (to_integer (num_sub (fst r) (Num tokenStart)))))
    else None in
  let mark :=
    slice content
      (if truthy_opt before
       then to_integer (num_sub (fst r) (Num tokenStart)) else 0)
      (to_integer (num_sub (snd r) (Num tokenStart))) in
  let marked :=
    mkArrayToken ESLINT_MARKED
      [buildToken mark; messageToken message]
      (AliasArr (if String.eqb mark LF
                    && num_eqb (num_add (fst r) (Num 1)) (snd r)
                 then [ESLINT_MARKED_LINE_FEED] else []))
      0 in
  let after :=
    if num_ltb (num_sub (snd r) (Num tokenStart)) (Num tlen)
    then Some (buildToken
                 (slice_from content
                    (to_integer (num_sub (snd r) (Num tokenStart)))))
    else None in
  mkSplit before marked after.

(** What [yield x] under [if (x)] adds to the output. *)
Definition yield_if (o : option token) : list token :=
  match o with
  | Some t => if truthy t then [t] else []
  | None => []
  end.

(** The state of the object [nextToken] after [splitToken] has run on it: a
    token with non-string content has had its [content] assigned, and is the
    very object returned as [marked]; a string and a token with string content
    are as they were. *)
Definition token_after_split (t : token) (res : split_result) : token :=
  match t with
  | Tok _ (COne _) _ _ | Tok _ (CArr _) _ _ => token_of (marked res)
  | _ => t
  end.

Section Loops.

(** [splitToken] at the range and message of the call. *)
Variable split : token -> Z -> split_result.
Variable r : range.

(** The inner loop of [convertMarked]:
    [while (nextTokenStartIndex < range[1] && buffer.length)].  It returns
    [result.marked], [result.after] and what is left of the buffer. *)
Fixpoint merge_next (buffer : list token) (nextTokenStartIndex : Z)
    (m : array_token) (aft : option token)
    : array_token * option token * list token :=
  match buffer with
  | [] => (m, aft, [])
  | nextToken :: buffer' =>
      if num_ltb (Num nextTokenStartIndex) (snd r) then
        let next := split nextToken nextTokenStartIndex in
        let m' :=
          mkArrayToken (at_type m)
            (removelast (at_content m) ++ at_content (marked next))
            (at_alias m) (at_length m) in
        let aft' := if truthy_opt (after next) then after next else aft in
        merge_next buffer'
          (nextTokenStartIndex
           + len (getTokenContent (token_after_split nextToken next)))
          m' aft'
      else (m, aft, buffer)
  end.

(** The outer loop of [convertMarked]: [while ((token = buffer.shift()))];
    the list returned is the sequence of the values yielded. *)
Fixpoint walk (buffer : list token) (start : Z) : list token :=
  match buffer with
  | [] => []
  | token :: buffer' =>
      if truthy token then
        let content := getTokenContent token in
        let end_ := start + len content in
        if is_empty content || num_leb (Num end_) (fst r) then
          token :: walk buffer' end_
        else
          let result := split token start in
          let '(m, aft, rest) :=
            merge_next buffer' end_ (marked result) (after result) in
          yield_if (before result) ++ [token_of m] ++ yield_if aft ++ rest
      else []
  end.

End Loops.

(** [splitToken({ token, range, message, tokenStart })] *)
Fixpoint splitToken (r : range) (message : string) (token : token)
    (tokenStart : Z) {struct token} : split_result :=
  match token with
  | Str s =>
      splitText Str (getTokenContent (Str s)) (token_length (Str s))
        r message tokenStart
  | Tok type content al length =>
      match content with
      | CStr s =>
          splitText (fun newContent => newToken type (CStr newContent) al)
            (getTokenContent (Tok type (CStr s) al length))
            (token_length (Tok type (CStr s) al length))
            r message tokenStart
      | COne t =>
          mkSplit None
            (mkArrayToken type
               (walk (splitToken r message) r [t] tokenStart) al length)
            None
      | CArr ts =>
          mkSplit None
            (mkArrayToken type
               (walk (splitToken r message) r ts tokenStart) al length)
            None
      end
  end.

(** [[...convertMarked({ tokens, range, message, tokenStart })]], where
    [tokens] is the buffer [[tokens].flat()]. *)
Definition convertMarked (tokens : list token) (r : range) (message : string)
    (tokenStart : Z) : list token :=
  walk (splitToken r message) r tokens tokenStart.

(** ** The hook *)

(** A message of the linter: [message], [line], [column], the optional
    [endLine] with its [endColumn], and [fatal]. *)
Record lint_message : Type := mkLintMessage {
  lm_message : string;
  lm_line : Z;
  lm_column : Z;
  lm_end : option (Z * Z);
  lm_fatal : bool
}.

(** What the hook takes from the rest of the project: the linter, the helper
    that makes the code of an example parsable, and the matches of the global
    line break matcher of [ast-utils] in a text, each as
    [(match.index, match[0].length)]. *)
Class Collaborators : Type := {
  ParserOptions : Type;
  linter_verify : string -> ParserOptions -> list lint_message;
  docsExampleCodeToParsableCode : string -> string;
  linebreak_matches : string -> list (Z * Z)
}.

(** The two variables of the module. *)
Record module_state `{Collaborators} : Type := mkState {
  contentMustBeMarked : option string;
  contentParserOptions : option ParserOptions
}.

Arguments mkState {_} _ _.

(** [env] of the [after-tokenize] hook, as far as the hook uses it. *)
Record env : Type := mkEnv {
  code : string;
  tokens : list token
}.

(** An entry of [messageRanges]. *)
Record message_range : Type := mkMessageRange {
  mr_message : string;
  mr_range : range
}.

(** How a call of the hook ends: it returns, leaving [env] as given here, or
    it throws a [TypeError] (reading [sourceType] of [undefined]). *)
Inductive completion : Type :=
| Returned (e : env)
| Thrown.

Section Hook.

Context `{Collaborators}.

(** [addContentMustBeMarked(content, options)] *)
Definition addContentMustBeMarked (content : string) (options : ParserOptions)
    (st : module_state) : module_state :=
  mkState (Some content) (Some options).

(** [lineStartIndices], as computed from the code. *)
Definition lineStartIndices (code : string) : list Z :=
  0 :: map (fun m => fst m + snd m) (linebreak_matches code).

(** [getIndexFromLoc({ line, column })] *)
Definition getIndexFromLoc (indices : list Z) (line column : Z) : num :=
  let lineStartIndex :=
    if line - 1 <? 0 then None else nth_error indices (Z.to_nat (line - 1)) in
  match lineStartIndex with
  | Some i => Num (i + column - 1)
  | None => NaN
  end.

(** The function mapped over [messages]. *)
Definition messageRange (indices : list Z) (m : lint_message) : message_range :=
  let start := getIndexFromLoc indices (lm_line m) (lm_column m) in
  mkMessageRange (lm_message m)
    (start,
     match lm_end m with
     | None => num_add start (Num 1)
     | Some (endLine, endColumn) => getIndexFromLoc indices endLine endColumn
     end).

Definition messageRanges (code : string) (messages : list lint_message)
    : list message_range :=
  map (messageRange (lineStartIndices code)) messages.

(** The final loop:
    [env.tokens = [...convertMarked({ tokens: env.tokens, range, message })]]
    for each entry of [messageRanges]. *)
Definition applyRanges (ranges : list message_range) (tokens : list token)
    : list token :=
  fold_left
    (fun tokens mr => convertMarked tokens (mr_range mr) (mr_message mr) 0)
    ranges tokens.

(** [contentMustBeMarked !== env.code] *)
Definition differs (registered : option string) (code : string) : bool :=
  match registered with
  | Some content => negb (String.eqb content code)
  | None => true
  end.

(** The callback added to [after-tokenize]. *)
Definition afterTokenize (st : module_state) (e : env)
    : module_state * completion :=
  if differs (contentMustBeMarked st) (code e) then (st, Returned e)
  else
    let st' := mkState None (contentParserOptions st) in
    match contentParserOptions st with
    | None => (st', Thrown)
    | Some parserOptions =>
        let messages :=
          linter_verify (docsExampleCodeToParsableCode (code e))
            parserOptions in
        if existsb lm_fatal messages then (st', Returned e)
        else
          (st',
           Returned
             (mkEnv (code e)
                (applyRanges (messageRanges (code e) messages) (tokens e))))
    end.

End Hook.

(** ** The splitter on a store of token objects

    [splitToken] assigns to [token.content] and [convertMarked] pops from and
    pushes onto [result.marked.content]: tokens are objects, and a token given
    to the splitter can come back changed.  Here a [Prism.Token] is an object
    of a store and a token stream holds strings and references.  An array is
    kept as the value of the [content] field that holds it: the splitter only
    changes arrays it has just built, each held by one field. *)

Module Store.

Definition loc : Type := nat.

(** [string | Prism.Token] *)
Inductive value : Type :=
| VStr (s : string)
| VRef (l : loc).

(** The [content] field: a string, a token or an array. *)
Inductive content : Type :=
| HStr (s : string)
| HOne (l : loc)
| HArr (vs : list value).

Record object : Type := mkObject {
  o_type : string;
  o_content : content;
  o_alias : alias;
  o_length : Z
}.

Definition heap : Type := list object.

Definition read (h : heap) (l : loc) : option object := nth_error h l.

Fixpoint update (h : heap) (l : loc) (o : object) : heap :=
  match h, l with
  | [], _ => []
  | _ :: h', O => o :: h'
  | x :: h', S l' => x :: update h' l' o
  end.

(** Computations on the store that may fail: a [TypeError], or the fuel of
    the recursion is used up. *)
Definition M (A : Type) : Type := heap -> option (heap * A).

Definition ret {A} (a : A) : M A := fun h => Some (h, a).

Definition fail {A} : M A := fun _ => None.

Definition bind {A B} (c : M A) (k : A -> M B) : M B :=
  fun h => match c h with
           | Some (h', a) => k a h'
           | None => None
           end.

Notation "x <- c ;; k" := (bind c (fun x => k))
  (at level 61, c at next level, right associativity).
Notation "c ;;; k" := (bind c (fun _ => k))
  (at level 61, right associativity).

(** [new Prism.Token(type, content, alias)] *)
Definition new_token (type : string) (c : content) (al : alias) : M loc :=
  fun h => Some ((h ++ [mkObject type c al 0])%list, List.length h).

Definition get (l : loc) : M object :=
  fun h => match read h l with
           | Some o => Some (h, o)
           | None => None
           end.

(** [token.content = c] *)
Definition set_content (l : loc) (c : content) : M unit :=
  fun h => match read h l with
           | Some o =>
               Some (update h l
                       (mkObject (o_type o) c (o_alias o) (o_length o)), tt)
           | None => None
           end.

(** The array held by the [content] field of a token. *)
Definition get_array (l : loc) : M (list value) :=
  o <- get l ;;
  match o_content o with
  | HArr vs => ret vs
  | _ => fail
  end.

(** [token.content.pop()] *)
Definition pop_content (l : loc) : M unit :=
  mine <- get_array l ;;
  set_content l (HArr (removelast mine)).

(** [token.content.push(...vs)] *)
Definition push_content (l : loc) (vs : list value) : M unit :=
  mine <- get_array l ;;
  set_content l (HArr (mine ++ vs)%list).

Definition truthy (v : value) : bool :=
  match v with
  | VStr s => negb (is_empty s)
  | VRef _ => true
  end.

Definition truthy_opt (o : option value) : bool :=
  match o with
  | Some v => truthy v
  | None => false
  end.

Definition yield_if (o : option value) : list value :=
  match o with
  | Some v => if truthy v then [v] else []
  | None => []
  end.

(** [getTokenContent(token)], reading the store. *)
Fixpoint getTokenContent (fuel : nat) (h : heap) (token : value)
    : option string :=
  match fuel with
  | O => None
  | S fuel' =>
      match token with
      | VStr s => Some s
      | VRef l =>
          match read h l with
          | None => None
          | Some o =>
              if String.eqb (o_type o) ESLINT_MESSAGE then Some EmptyString
              else match o_content o with
                   | HStr s => Some s
                   | HOne l' => getTokenContent fuel' h (VRef l')
                   | HArr vs =>
                       fold_right
                         (fun v acc =>
                            match getTokenContent fuel' h v, acc with
                            | Some s, Some rest => Some (s ++ rest)%string
                            | _, _ => None
                            end)
                         (Some EmptyString) vs
                   end
          end
      end
  end.

Definition content_of (fuel : nat) (token : value) : M string :=
  fun h => match getTokenContent fuel h token with
           | Some s => Some (h, s)
           | None => None
           end.

Record split_result : Type := mkSplit {
  before : option value;
  marked : loc;
  after : option value
}.

(** The second half of [splitToken]; [buildToken] returns the string itself
    or a new token. *)
Definition splitText (buildToken : string -> M value) (content : string)
    (tlen : Z) (r : range) (message : string) (tokenStart : Z)
    : M split_result :=
  before <-
    (if num_ltb (Num tokenStart) (fst r)
     then b <- buildToken
                 (slice content 0
                    (to_integer (num_sub (fst r) (Num tokenStart)))) ;;
          ret (Some b)
     else ret None) ;;
  let mark :=
    slice content
      (if truthy_opt before
       then to_integer (num_sub (fst r) (Num tokenStart)) else 0)
      (to_integer (num_sub (snd r) (Num tokenStart))) in
  inner <- buildToken mark ;;
  msg <- new_token ESLINT_MESSAGE (HStr message) (AliasArr ["alert"]) ;;
  marked <-
    new_token ESLINT_MARKED (HArr [inner; VRef msg])
      (AliasArr (if String.eqb mark LF
                    && num_eqb (num_add (fst r) (Num 1)) (snd r)
                 then [ESLINT_MARKED_LINE_FEED] else [])) ;;
  after <-
    (if num_ltb (num_sub (snd r) (Num tokenStart)) (Num tlen)
     then a <- buildToken
                 (slice_from content
                    (to_integer (num_sub (snd r) (Num tokenStart)))) ;;
          ret (Some a)
     else ret None) ;;
  ret (mkSplit before marked after).

Section Loops.

Variable content_of : value -> M string.
Variable split : value -> Z -> M split_result.
Variable r : range.

(** The inner loop; [m] is [result.marked] and [aft] is [result.after]. *)
Fixpoint merge_next (buffer : list value) (nextTokenStartIndex : Z)
    (m : loc) (aft : option value) : M (option value * list value) :=
  match buffer with
  | [] => ret (aft, [])
  | nextToken :: buffer' =>
      if num_ltb (Num nextTokenStartIndex) (snd r) then
        next <- split nextToken nextTokenStartIndex ;;
        pop_content m ;;;
        theirs <- get_array (marked next) ;;
        push_content m theirs ;;;
        let aft' := if truthy_opt (after next) then after next else aft in
        s <- content_of nextToken ;;
        merge_next buffer' (nextTokenStartIndex + len s) m aft'
      else ret (aft, buffer)
  end.

(** The outer loop; the list returned holds the values yielded. *)
Fixpoint walk (buffer : list value) (start : Z) : M (list value) :=
  match buffer with
  | [] => ret []
  | token :: buffer' =>
      if truthy token then
        content <- content_of token ;;
        let end_ := start + len content in
        if is_empty content || num_leb (Num end_) (fst r) then
          rest <- walk buffer' end_ ;;
          ret (token :: rest)
        else
          result <- split token start ;;
          tail <- merge_next buffer' end_ (marked result) (after result) ;;
          ret (yield_if (before result) ++ [VRef (marked result)]
               ++ yield_if (fst tail) ++ snd tail)%list
      else ret []
  end.

End Loops.

(** [splitToken({ token, range, message, tokenStart })] *)
Fixpoint splitToken (fuel : nat) (r : range) (message : string)
    (token : value) (tokenStart : Z) : M split_result :=
  match fuel with
  | O => fail
  | S fuel' =>
      match token with
      | VStr s =>
          content <- content_of fuel token ;;
          splitText (fun newContent => ret (VStr newContent))
            content (len s) r message tokenStart
      | VRef l =>
          o <- get l ;;
          match o_content o with
          | HStr _ =>
              content <- content_of fuel token ;;
              splitText
                (fun newContent =>
                   n <- new_token (o_type o) (HStr newContent) (o_alias o) ;;
                   ret (VRef n))
                content (o_length o) r message tokenStart
          | HOne l' =>
              converted <-
                walk (content_of fuel) (splitToken fuel' r message) r
                  [VRef l'] tokenStart ;;
              set_content l (HArr converted) ;;;
              ret (mkSplit None l None)
          | HArr vs =>
              converted <-
                walk (content_of fuel) (splitToken fuel' r message) r
                  vs tokenStart ;;
              set_content l (HArr converted) ;;;
              ret (mkSplit None l None)
          end
      end
  end.

(** [[...convertMarked({ tokens, range, message, tokenStart })]] on the
    buffer [[tokens].flat()]. *)
Definition convertMarked (fuel : nat) (tokens : list value) (r : range)
    (message : string) (tokenStart : Z) : M (list value) :=
  walk (content_of fuel) (splitToken fuel r message) r tokens tokenStart.

(** The token tree that a value stands for in a store. *)
Fixpoint tree (fuel : nat) (h : heap) (v : value) : option token :=
  match fuel with
  | O => None
  | S fuel' =>
      match v with
      | VStr s => Some (Str s)
      | VRef l =>
          match read h l with
          | None => None
          | Some o =>
              match
                match o_content o with
                | HStr s => Some (CStr s)
                | HOne l' => option_map COne (tree fuel' h (VRef l'))
                | HArr vs =>
                    option_map CArr
                      (fold_right
                         (fun v acc =>
                            match tree fuel' h v, acc with
                            | Some t, Some ts => Some (t :: ts)
                            | _, _ => None
                            end)
                         (Some []) vs)
                end
              with
              | Some c => Some (Tok (o_type o) c (o_alias o) (o_length o))
              | None => None
              end
          end
      end
  end.

Definition trees (fuel : nat) (h : heap) (vs : list value)
    : option (list token) :=
  fold_right
    (fun v acc =>
       match tree fuel h v, acc with
       | Some t, Some ts => Some (t :: ts)
       | _, _ => None
       end)
    (Some []) vs.

(** What a call may do to the objects that were there before it: the type,
    the alias and the length of an object stay, a string content stays, and
    a content that is no string is still no string. *)
Definition preserved (o o' : object) : Prop :=
  o_type o' = o_type o /\ o_alias o' = o_alias o /\ o_length o' = o_length o
  /\ match o_content o with
     | HStr s => o_content o' = HStr s
     | _ => forall s, o_content o' <> HStr s
     end.

Definition frame (h h' : heap) : Prop :=
  forall l o, read h l = Some o ->
              exists o', read h' l = Some o' /\ preserved o o'.

(** A computation that stays within the frame. *)
Definition frames {A : Type} (c : M A) : Prop :=
  forall h h' a, c h = Some (h', a) -> frame h h'.

End Store.

(** ** Notions used in the statements *)

(** Number of tokens of type [ty] in a token, at any depth. *)
Fixpoint count_type (ty : string) (t : token) : nat :=
  match t with
  | Str _ => O
  | Tok type content _ _ =>
      ((if String.eqb type ty then 1 else 0)
       + match content with
         | CStr _ => 0
         | COne t' => count_type ty t'
         | CArr ts => list_sum (map (count_type ty) ts)
         end)%nat
  end.

Definition count_types (ty : string) (ts : list token) : nat :=
  list_sum (map (count_type ty) ts).

(** [occurs w t]: the token [w] is [t] or occurs in its content, at any
    depth. *)
Inductive occurs (w : token) : token -> Prop :=
| occurs_here : occurs w w
| occurs_one : forall type t al l,
    occurs w t -> occurs w (Tok type (COne t) al l)
| occurs_arr : forall type ts t al l,
    In t ts -> occurs w t -> occurs w (Tok type (CArr ts) al l).

Definition occurs_in (w : token) (ts : list token) : Prop :=
  exists t, In t ts /\ occurs w t.

(** No empty string among the tokens of a tree, at any depth. *)
Fixpoint solid (t : token) : bool :=
  match t with
  | Str s => negb (is_empty s)
  | Tok _ content _ _ =>
      match content with
      | CStr _ => true
      | COne t' => solid t'
      | CArr ts => forallb solid ts
      end
  end.

(** The wrapper built for a range over the one token [inner]. *)
Definition wrapper (inner : token) (message : string) (line_feed : bool)
    : token :=
  Tok ESLINT_MARKED (CArr [inner; messageToken message])
    (AliasArr (if line_feed then [ESLINT_MARKED_LINE_FEED] else [])) 0.

(** Induction on tokens, with the hypothesis for each token of an array. *)
Section TokenInduction.

Variable P : token -> Prop.
Hypothesis P_Str : forall s, P (Str s).
Hypothesis P_CStr : forall type s al l, P (Tok type (CStr s) al l).
Hypothesis P_COne : forall type t al l, P t -> P (Tok type (COne t) al l).
Hypothesis P_CArr :
  forall type ts al l, Forall P ts -> P (Tok type (CArr ts) al l).

Fixpoint token_induction (t : token) : P t :=
  match t with
  | Str s => P_Str s
  | Tok type content al l =>
      match content with
      | CStr s => P_CStr type s al l
      | COne t' => P_COne type t' al l (token_induction t')
      | CArr ts =>
          P_CArr type ts al l
            ((fix all (ts : list token) : Forall P ts :=
                match ts with
                | [] => Forall_nil P
                | t' :: ts' => Forall_cons t' (token_induction t') (all ts')
                end) ts)
      end
  end.

End TokenInduction.

(** A token without nested content and of no type of the hook. *)
Definition unmarked (t : token) : bool :=
  match t with
  | Str _ => true
  | Tok type (CStr _) _ _ =>
      negb (String.eqb type ESLINT_MESSAGE)
      && negb (String.eqb type ESLINT_MARKED)
  | Tok _ _ _ _ => false
  end.

(** A token as the tokenizer makes it, without nested content: a string
    that is not empty, or a token whose [length] is the length of its
    content. *)
Definition plain (t : token) : bool :=
  match t with
  | Str s => negb (is_empty s)
  | Tok _ _ _ l => unmarked t && (l =? len (getTokenContent t))
  end.

(** A string that is not empty. *)
Definition is_text (t : token) : bool :=
  match t with
  | Str s => negb (is_empty s)
  | Tok _ _ _ _ => false
  end.

(** Ranges with integer bounds, each not empty and none beginning before
    [from] or before the end of the one before it. *)
Fixpoint sorted_from (from : Z) (ranges : list message_range) : Prop :=
  match ranges with
  | [] => True
  | mr :: ranges' =>
      exists s e,
        mr_range mr = (Num s, Num e) /\ from <= s /\ s < e
        /\ sorted_from e ranges'
  end.

(** [buildToken] of [splitToken] for the token [t]. *)
Definition rebuild (t : token) (newContent : string) : token :=
  match t with
  | Str _ => Str newContent
  | Tok type _ al _ => newToken type (CStr newContent) al
  end.


(** What the splitter does around the character [c] at offset [s] for a range
    of length one: the token it returns as [marked] holds the wrapper of that
    character. *)
Definition splits_one (s : Z) (message : string) (t : token) : Prop :=
  forall start c,
    solid t = true ->
    start <= s ->
    get (Z.to_nat (s - start)) (getTokenContent t) = Some c ->
    exists inner,
      getTokenContent inner = String c ""
      /\ occurs (wrapper inner message (String.eqb (String c "") LF))
           (token_of
              (marked (splitToken (Num s, Num (s + 1)) message t start))).

(** Inputs of the examples. *)

Definition nested_then_text : list token :=
  [Tok "template-string" (CArr [Str "xy"]) AliasUndefined 2; Str "zw"].

Definition text_then_nested : list token :=
  [Str "xy"; Tok "template-string" (CArr [Str "z"; Str "w"]) AliasUndefined 2].

Definition line_feed_tokens : list token :=
  [Str "a"; Tok "comment" (CArr [Str LF; Str "b"]) AliasUndefined 2].

Definition one_string_token : list token :=
  [Tok "string" (CStr "abcdef") AliasUndefined 6].

(** Collaborators for the examples: the linter reports one fatal message for
    the code ["("] and one plain message for any other code. *)
Definition example_collaborators : Collaborators :=
  {| ParserOptions := unit;
     linter_verify := fun code _ =>
       if String.eqb code "("
       then [mkLintMessage "Parsing error" 1 1 None true]
       else [mkLintMessage "Unexpected var" 1 1 None false];
     docsExampleCodeToParsableCode := fun code => code;
     linebreak_matches := fun _ => [] |}.

Definition example_state (registered : option string)
    : @module_state example_collaborators :=
  @mkState example_collaborators registered (Some tt).

(** A store with one token, of content [["xy"]], and the store after the
    range [0, 1) has been applied to the stream made of that token. *)
Definition example_heap : Store.heap :=
  [Store.mkObject "template-string" (Store.HArr [Store.VStr "xy"])
     AliasUndefined 2].

Definition example_heap_after : Store.heap :=
  [Store.mkObject "template-string"
     (Store.HArr [Store.VRef 2%nat; Store.VStr "y"]) AliasUndefined 2;
   Store.mkObject ESLINT_MESSAGE (Store.HStr "M") (AliasArr ["alert"]) 0;
   Store.mkObject ESLINT_MARKED
     (Store.HArr [Store.VStr "x"; Store.VRef 1%nat]) (AliasArr []) 0].

(** The tokens that a run of the store model leaves, as trees. *)
Definition store_run_trees (run : option (Store.heap * list Store.value))
    : option (list token) :=
  match run with
  | Some (h, out) => Store.trees 8%nat h out
  | None => None
  end.

(** The stores of the inputs above. *)
Definition one_string_token_heap : Store.heap :=
  [Store.mkObject "string" (Store.HStr "abcdef") AliasUndefined 6].

Definition line_feed_tokens_heap : Store.heap :=
  [Store.mkObject "comment" (Store.HArr [Store.VStr LF; Store.VStr "b"])
     AliasUndefined 2].

Definition nested_then_text_heap : Store.heap :=
  [Store.mkObject "template-string" (Store.HArr [Store.VStr "xy"])
     AliasUndefined 2].

Definition text_then_nested_heap : Store.heap :=
  [Store.mkObject "template-string"
     (Store.HArr [Store.VStr "z"; Store.VStr "w"]) AliasUndefined 2].

(** ** The two models side by side

    The relation between a store and the trees: which values stand for
    which trees, at which locations. *)

Module Refinement.

(** A set of locations of the store. *)
Definition own : Type := Store.loc -> Prop.

Definition sep (A B : own) : Prop := forall l, A l -> B l -> False.

Definition within (A B : own) : Prop := forall l, A l -> B l.

Definition without (A : own) (l : Store.loc) : own := fun x => A x /\ x <> l.

Definition union (A B : own) : own := fun x => A x \/ B x.

(** The locations allocated between two stores. *)
Definition fresh (h h' : Store.heap) : own :=
  fun l => (List.length h <= l < List.length h')%nat.

Definition bounded (h : Store.heap) (A : own) : Prop :=
  forall l, A l -> (l < List.length h)%nat.

Section Stands.

Variable h : Store.heap.
Variable stands : token -> Store.value -> own -> Prop.

(** The values [vs] stand for the trees [ts], each with locations of its own
    among [A]. *)
Fixpoint stands_all_with (ts : list token) (vs : list Store.value) (A : own)
    : Prop :=
  match ts, vs with
  | [], [] => True
  | t :: ts', v :: vs' =>
      exists B C,
        stands t v B /\ stands_all_with ts' vs' C
        /\ sep B C /\ within B A /\ within C A
  | _, _ => False
  end.

End Stands.

(** [stands h t v A]: in the store [h] the value [v] stands for the tree [t],
    the objects of the tree are at locations of [A], and no object occurs
    twice in it. *)
Fixpoint stands (h : Store.heap) (t : token) (v : Store.value) (A : own)
    {struct t} : Prop :=
  match t with
  | Str s => v = Store.VStr s
  | Tok type content al len =>
      exists l o,
        v = Store.VRef l /\ Store.read h l = Some o
        /\ Store.o_type o = type /\ Store.o_alias o = al
        /\ Store.o_length o = len /\ A l
        /\ match content with
           | CStr s => Store.o_content o = Store.HStr s
           | COne t' =>
               exists l',
                 Store.o_content o = Store.HOne l'
                 /\ stands h t' (Store.VRef l') (without A l)
           | CArr ts =>
               exists vs,
                 Store.o_content o = Store.HArr vs
                 /\ stands_all_with (stands h) ts vs (without A l)
           end
  end.

Definition stands_all (h : Store.heap)
    : list token -> list Store.value -> own -> Prop :=
  stands_all_with (stands h).

Definition stands_opt (h : Store.heap) (t : option token)
    (v : option Store.value) (A : own) : Prop :=
  match t, v with
  | None, None => True
  | Some t', Some v' => stands h t' v' A
  | _, _ => False
  end.

(** Height of a tree: the fuel that reading it takes. *)
Fixpoint height (t : token) : nat :=
  match t with
  | Str _ => O
  | Tok _ content _ _ =>
      S (match content with
         | CStr _ => O
         | COne t' => height t'
         | CArr ts => fold_right (fun t' n => Nat.max (height t') n) O ts
         end)
  end.

Definition heights (ts : list token) : nat :=
  fold_right (fun t' n => Nat.max (height t') n) O ts.

(** A tree stays in a store that is the same at its locations. *)
Definition same_on (h h' : Store.heap) (A : own) : Prop :=
  forall l, A l -> Store.read h' l = Store.read h l.

(** The store [h'] is [h] with new objects after it. *)
Definition grows (h h' : Store.heap) : Prop :=
  exists more, h' = (h ++ more)%list.

(** The store [h'] is [h] but for the objects at locations of [A] and for new
    objects. *)
Definition changes (h h' : Store.heap) (A : own) : Prop :=
  (List.length h <= List.length h')%nat
  /\ forall l, (l < List.length h)%nat -> ~ A l ->
               Store.read h' l = Store.read h l.

(** The empty set of locations. *)
Definition nothing : own := fun _ => False.

(** [buildToken] in the two models. *)
Definition builds (buildS : string -> Store.M Store.value)
    (buildT : string -> token) : Prop :=
  forall x h,
    exists h' v,
      buildS x h = Some (h', v) /\ grows h h'
      /\ stands h' (buildT x) v (fresh h h').

Definition height_opt (o : option token) : nat :=
  match o with
  | Some t => height t
  | None => O
  end.

(** What [splitToken] returns is at most two higher than the token. *)
Definition split_heights (r : range) (message : string) (t : token)
    : Prop :=
  forall start,
    (height_opt (before (splitToken r message t start)) <= height t + 2
     /\ height (token_of (marked (splitToken r message t start)))
        <= height t + 2
     /\ height_opt (after (splitToken r message t start)) <= height t + 2)%nat.

(** What [splitToken] does in the store, for the token [t]: the three parts
    stand for the three parts that the tree model gives, each in locations
    of its own, all within the locations of the token and the new ones; the
    token itself stands for its state after the call; the rest of the store
    is as it was. *)
Definition split_spec (splitS : Store.value -> Z -> Store.M Store.split_result)
    (r : range) (message : string) (t : token) : Prop :=
  forall h v A start,
    stands h t v A -> bounded h A ->
    exists h' res,
      splitS v start h = Some (h', res)
      /\ changes h h' A
      /\ exists Ab Am Aa,
          sep Ab Am /\ sep Ab Aa /\ sep Am Aa
          /\ within Ab (union A (fresh h h'))
          /\ within Am (union A (fresh h h'))
          /\ within Aa (union A (fresh h h'))
          /\ stands_opt h' (before (splitToken r message t start))
               (Store.before res) Ab
          /\ stands h' (token_of (marked (splitToken r message t start)))
               (Store.VRef (Store.marked res)) Am
          /\ stands_opt h' (after (splitToken r message t start))
               (Store.after res) Aa
          /\ stands h' (token_after_split t (splitToken r message t start)) v
               (union A (fresh h h')).

End Refinement.

(** ** More examples *)

(** The matches of a matcher of the line feed alone, from offset [i]. *)
Fixpoint line_feeds (i : Z) (s : string) : list (Z * Z) :=
  match s with
  | EmptyString => []
  | String c s' =>
      if Ascii.eqb c (ascii_of_nat 10)
      then (i, 1) :: line_feeds (i + 1) s'
      else line_feeds (i + 1) s'
  end.

(** Collaborators for the examples with several lines: the linter reports
    the messages given, whatever the code. *)
Definition line_collaborators (messages : list lint_message) : Collaborators :=
  {| ParserOptions := unit;
     linter_verify := fun _ _ => messages;
     docsExampleCodeToParsableCode := fun code => code;
     linebreak_matches := line_feeds 0 |}.

(** The code of two lines ["ab\ncd"]. *)
Definition two_lines : string := "ab" ++ LF ++ "cd".

Definition line_state (messages : list lint_message)
    (registered : option string)
    : @module_state (line_collaborators messages) :=
  @mkState (line_collaborators messages) registered (Some tt).

(** The final loop of the hook on the store:
    [env.tokens = [...convertMarked({ tokens: env.tokens, range, message })]]
    for each entry of [messageRanges]. *)
Module StoreLoop.

Fixpoint applyRanges (fuel : nat) (ranges : list message_range)
    (tokens : list Store.value) : Store.M (list Store.value) :=
  match ranges with
  | [] => Store.ret tokens
  | mr :: ranges' =>
      Store.bind
        (Store.convertMarked fuel tokens (mr_range mr) (mr_message mr) 0)
        (fun out => applyRanges fuel ranges' out)
  end.

End StoreLoop.

(** * Properties *)

(** ** Strings *)

Lemma append_nil_r (s : string) : s ++ "" = s.
Proof.
  induction s as [|c s IH]; simpl; [reflexivity | rewrite IH; reflexivity].
Qed.

Lemma append_assoc (s t u : string) : (s ++ t) ++ u = s ++ (t ++ u).
Proof.
  induction s as [|c s IH]; simpl; [reflexivity | rewrite IH; reflexivity].
Qed.

Lemma len_nonneg (s : string) : 0 <= len s.
Proof. unfold len. lia. Qed.

Lemma len_append (s t : string) : len (s ++ t) = len s + len t.
Proof.
  unfold len. induction s as [|c s IH]; simpl String.length; [lia|].
  rewrite !Nat2Z.inj_succ. lia.
Qed.

Lemma is_empty_true (s : string) : is_empty s = true <-> s = "".
Proof. destruct s; simpl; split; congruence. Qed.

Lemma is_empty_false (s : string) : is_empty s = false <-> 0 < len s.
Proof.
  unfold len. destruct s; simpl String.length; split; intros E;
    try reflexivity; try discriminate; lia.
Qed.

Lemma take_drop (n : nat) (s : string) : take n s ++ drop n s = s.
Proof.
  revert s. induction n as [|n IH]; intros [|c s]; simpl; try reflexivity.
  rewrite IH. reflexivity.
Qed.

Lemma take_all (n : nat) (s : string) :
  (String.length s <= n)%nat -> take n s = s.
Proof.
  revert s. induction n as [|n IH]; intros [|c s]; simpl; intros L;
    try reflexivity; try lia.
  rewrite IH; [reflexivity | lia].
Qed.

Lemma drop_all (n : nat) (s : string) :
  (String.length s <= n)%nat -> drop n s = "".
Proof.
  revert s. induction n as [|n IH]; intros [|c s]; simpl; intros L;
    try reflexivity; try lia.
  apply IH. lia.
Qed.

Lemma take_append_l (n : nat) (s t : string) :
  (n <= String.length s)%nat -> take n (s ++ t) = take n s.
Proof.
  revert s. induction n as [|n IH]; intros [|c s]; simpl; intros L;
    try reflexivity; try lia.
  rewrite IH; [reflexivity | lia].
Qed.

Lemma take_append_r (n : nat) (s t : string) :
  (String.length s <= n)%nat ->
  take n (s ++ t) = s ++ take (n - String.length s) t.
Proof.
  revert n. induction s as [|c s IH]; intros n L; simpl.
  - rewrite Nat.sub_0_r. reflexivity.
  - destruct n as [|n]; simpl in *; [lia|].
    rewrite IH; [reflexivity | lia].
Qed.

Lemma drop_append_l (n : nat) (s t : string) :
  (n <= String.length s)%nat -> drop n (s ++ t) = drop n s ++ t.
Proof.
  revert s. induction n as [|n IH]; intros [|c s]; simpl; intros L;
    try reflexivity; try lia.
  apply IH. lia.
Qed.

Lemma drop_append_r (n : nat) (s t : string) :
  (String.length s <= n)%nat ->
  drop n (s ++ t) = drop (n - String.length s) t.
Proof.
  revert n. induction s as [|c s IH]; intros n L; simpl.
  - rewrite Nat.sub_0_r. reflexivity.
  - destruct n as [|n]; simpl in *; [lia|].
    apply IH. lia.
Qed.

Lemma length_take (n : nat) (s : string) :
  String.length (take n s) = Nat.min n (String.length s).
Proof.
  revert s. induction n as [|n IH]; intros [|c s]; simpl; try reflexivity.
  rewrite IH. reflexivity.
Qed.

Lemma length_drop (n : nat) (s : string) :
  String.length (drop n s) = (String.length s - n)%nat.
Proof.
  revert s. induction n as [|n IH]; intros [|c s]; simpl; try reflexivity.
  apply IH.
Qed.

(** [slice] and [slice_from] at offsets that are not negative. *)
Lemma slice_nonneg (s : string) (b e : Z) :
  0 <= b -> 0 <= e ->
  slice s b e = take (Z.to_nat e - Z.to_nat b) (drop (Z.to_nat b) s).
Proof.
  intros Hb He. unfold slice, clamp.
  destruct (b <? 0) eqn:Eb; [lia|]. destruct (e <? 0) eqn:Ee; [lia|].
  pose proof (len_nonneg s) as Hl. unfold len in *.
  destruct (Z.le_gt_cases b (Z.of_nat (String.length s))) as [Lb|Lb].
  - rewrite (Z.min_l b) by lia.
    destruct (Z.le_gt_cases e (Z.of_nat (String.length s))) as [Le|Le].
    + rewrite (Z.min_l e) by lia. f_equal. lia.
    + rewrite (Z.min_r e) by lia.
      rewrite !take_all; try reflexivity; rewrite length_drop; lia.
  - rewrite (Z.min_r b) by lia.
    rewrite !drop_all by lia.
    destruct (Z.to_nat _), (Z.to_nat e - Z.to_nat b)%nat; reflexivity.
Qed.

Lemma slice_from_nonneg (s : string) (b : Z) :
  0 <= b -> slice_from s b = drop (Z.to_nat b) s.
Proof.
  intros Hb. unfold slice_from, clamp.
  destruct (b <? 0) eqn:Eb; [lia|].
  pose proof (len_nonneg s) as Hl. unfold len in *.
  destruct (Z.le_gt_cases b (Z.of_nat (String.length s))) as [Lb|Lb].
  - rewrite Z.min_l by lia. reflexivity.
  - rewrite Z.min_r by lia. rewrite !drop_all by lia. reflexivity.
Qed.

Lemma join_app (l1 l2 : list string) : join (l1 ++ l2) = join l1 ++ join l2.
Proof.
  unfold join. induction l1 as [|s l1 IH]; simpl; [reflexivity|].
  rewrite IH, append_assoc. reflexivity.
Qed.

Lemma text_app (a b : list token) : text (a ++ b) = text a ++ text b.
Proof. unfold text. rewrite map_app. apply join_app. Qed.

Lemma text_cons (t : token) (ts : list token) :
  text (t :: ts) = getTokenContent t ++ text ts.
Proof. reflexivity. Qed.

(** The character at an offset, and the slice of length one there. *)
Lemma get_append_l (n : nat) (s t : string) :
  (n < String.length s)%nat -> get n (s ++ t) = get n s.
Proof.
  revert n. induction s as [|c s IH]; intros [|n] L; simpl in *;
    try lia; try reflexivity.
  apply IH. lia.
Qed.

Lemma get_append_r (n : nat) (s t : string) :
  (String.length s <= n)%nat -> get n (s ++ t) = get (n - String.length s) t.
Proof.
  revert n. induction s as [|c s IH]; intros n L; simpl.
  - rewrite Nat.sub_0_r. reflexivity.
  - destruct n as [|n]; simpl in *; [lia|]. apply IH. lia.
Qed.

Lemma get_Some_lt (n : nat) (s : string) (c : ascii) :
  get n s = Some c -> (n < String.length s)%nat.
Proof.
  revert n. induction s as [|x s IH]; intros [|n] E; simpl in *;
    try discriminate; try lia.
  apply IH in E. lia.
Qed.

Lemma take_one_drop (n : nat) (s : string) (c : ascii) :
  get n s = Some c -> take 1 (drop n s) = String c "".
Proof.
  revert n. induction s as [|x s IH]; intros [|n] E; simpl in *;
    try discriminate.
  - inversion E. destruct s; reflexivity.
  - apply IH. exact E.
Qed.

Lemma slice_one (s : string) (i : Z) (c : ascii) :
  0 <= i -> get (Z.to_nat i) s = Some c -> slice s i (i + 1) = String c "".
Proof.
  intros Hi G. rewrite slice_nonneg by lia.
  replace (Z.to_nat (i + 1) - Z.to_nat i)%nat with 1%nat by lia.
  apply take_one_drop. exact G.
Qed.



(** ** The loops *)

Lemma merge_next_stops (split : token -> Z -> split_result) (r : range)
    (buffer : list token) (nts : Z) (m : array_token) (aft : option token) :
  num_ltb (Num nts) (snd r) = false ->
  merge_next split r buffer nts m aft = (m, aft, buffer).
Proof.
  intros E. destruct buffer; cbn [merge_next]; [|rewrite E]; reflexivity.
Qed.

Lemma occurs_in_cons (w t : token) (ts : list token) :
  occurs_in w ts -> occurs_in w (t :: ts).
Proof. intros (x & I & O). exists x. split; [right; exact I | exact O]. Qed.

Lemma occurs_in_middle (w t : token) (a b : list token) :
  occurs w t -> occurs_in w (a ++ [t] ++ b).
Proof.
  intros O. exists t. split; [|exact O].
  apply in_or_app. right. left. reflexivity.
Qed.

(** ** Ranges of length one *)

Section LengthOne.

Variable s : Z.
Variable message : string.

(** The wrapper that [splitText] builds around the character at [s]. *)
Lemma splitText_one (buildToken : string -> token) (content : string)
    (tlen start : Z) (c : ascii) :
  start <= s ->
  get (Z.to_nat (s - start)) content = Some c ->
  (forall x, x <> "" -> truthy (buildToken x) = true) ->
  token_of
    (marked
       (splitText buildToken content tlen (Num s, Num (s + 1)) message start))
  = wrapper (buildToken (String c "")) message (String.eqb (String c "") LF).
Proof.
  intros Hs G Hb. unfold splitText. cbn [fst snd num_ltb num_sub to_integer
    num_add num_eqb marked token_of at_type at_content at_alias at_length].
  assert (M : slice content
                (if truthy_opt
                      (if start <? s
                       then Some (buildToken (slice content 0 (s - start)))
                       else None)
                 then s - start else 0) (s + 1 - start) = String c "").
  { pose proof (get_Some_lt _ _ _ G) as Lt.
    replace (s + 1 - start) with ((s - start) + 1) by lia.
    destruct (start <? s) eqn:E.
    - apply Z.ltb_lt in E. cbn [truthy_opt]. rewrite Hb.
      + apply slice_one; [lia | exact G].
      + rewrite slice_nonneg by lia. intros Z0.
        apply (f_equal String.length) in Z0.
        rewrite length_take, length_drop in Z0. simpl in Z0. lia.
    - apply Z.ltb_ge in E. cbn [truthy_opt].
      replace (s - start) with 0 in * by lia.
      apply slice_one; [lia | exact G]. }
  rewrite M, Z.eqb_refl, andb_true_r. unfold wrapper. reflexivity.
Qed.

Lemma walk_one (ts : list token) :
  Forall (splits_one s message) ts ->
  forall start c,
    forallb solid ts = true ->
    start <= s ->
    get (Z.to_nat (s - start)) (text ts) = Some c ->
    exists inner,
      getTokenContent inner = String c ""
      /\ occurs_in (wrapper inner message (String.eqb (String c "") LF))
           (walk (splitToken (Num s, Num (s + 1)) message)
              (Num s, Num (s + 1)) ts start).
Proof.
  induction 1 as [|t ts Pt Pts IH]; intros start c S Hs G.
  - simpl in G. discriminate.
  - cbn [forallb] in S. apply andb_prop in S. destruct S as [St Sts].
    rewrite text_cons in G. cbn [walk].
    assert (Tr : truthy t = true) by (destruct t; [exact St | reflexivity]).
    rewrite Tr.
    assert (Hlen : len (getTokenContent t)
                   = Z.of_nat (String.length (getTokenContent t)))
      by reflexivity.
    destruct (is_empty (getTokenContent t)
              || num_leb (Num (start + len (getTokenContent t)))
                   (fst (Num s, Num (s + 1))))
      eqn:Pass.
    + assert (L : start + len (getTokenContent t) <= s).
      { apply orb_prop in Pass. destruct Pass as [E|E].
        - apply is_empty_true in E. rewrite E. unfold len. simpl. lia.
        - apply Z.leb_le in E. exact E. }
      rewrite get_append_r in G by lia.
      destruct (IH (start + len (getTokenContent t)) c Sts) as (inner & T & O).
      * lia.
      * rewrite <- G. f_equal. lia.
      * exists inner. split; [exact T|]. apply occurs_in_cons. exact O.
    + apply orb_false_elim in Pass. destruct Pass as [E1 E2].
      apply Z.leb_gt in E2.
      rewrite get_append_l in G by lia.
      destruct (Pt start c St Hs G) as (inner & T & O).
      exists inner. split; [exact T|].
      rewrite merge_next_stops.
      * apply occurs_in_middle. exact O.
      * simpl. apply Z.ltb_ge. lia.
Qed.

Lemma splitToken_one (t : token) : splits_one s message t.
Proof.
  induction t as [x | type x al l | type t al l IH | type ts al l IH]
    using token_induction; intros start c S Hs G.
  - exists (Str (String c "")). split; [reflexivity|].
    cbn [splitToken]. rewrite (splitText_one Str _ _ _ c Hs G).
    + apply occurs_here.
    + intros y Hy. destruct y; [congruence | reflexivity].
  - cbn [splitToken]. cbn [getTokenContent] in *.
    destruct (String.eqb type ESLINT_MESSAGE) eqn:E.
    + destruct (Z.to_nat (s - start)); discriminate.
    + exists (Tok type (CStr (String c "")) al 0). split.
      * cbn [getTokenContent]. rewrite E. reflexivity.
      * rewrite (splitText_one _ _ _ _ c Hs G).
        -- apply occurs_here.
        -- reflexivity.
  - cbn [getTokenContent] in G.
    destruct (String.eqb type ESLINT_MESSAGE) eqn:E.
    + destruct (Z.to_nat (s - start)); discriminate.
    + destruct (walk_one [t] (Forall_cons _ IH (Forall_nil _)) start c)
        as (inner & T & (x & I & O)).
      * cbn [solid] in S. cbn [forallb]. rewrite S. reflexivity.
      * exact Hs.
      * unfold text. simpl. rewrite append_nil_r. exact G.
      * exists inner. split; [exact T|].
        cbn [splitToken marked token_of at_type at_content at_alias at_length].
        eapply occurs_arr; eassumption.
  - cbn [getTokenContent] in G.
    destruct (String.eqb type ESLINT_MESSAGE) eqn:E.
    + destruct (Z.to_nat (s - start)); discriminate.
    + destruct (walk_one ts IH start c S Hs G) as (inner & T & (x & I & O)).
      exists inner. split; [exact T|].
      cbn [splitToken marked token_of at_type at_content at_alias at_length].
      eapply occurs_arr; eassumption.
Qed.

End LengthOne.

(** ** Plain tokens *)

Lemma take_nil (n : nat) : take n "" = "".
Proof. destruct n; reflexivity. Qed.

Lemma drop_nil (n : nat) : drop n "" = "".
Proof. destruct n; reflexivity. Qed.

Lemma to_nat_len (x : string) : Z.to_nat (len x) = String.length x.
Proof. unfold len. lia. Qed.

Lemma take_nonempty (n : nat) (x : string) :
  (0 < n)%nat -> x <> "" -> take n x <> "".
Proof. destruct n, x; simpl; intros; try lia; congruence. Qed.

Lemma drop_nonempty (n : nat) (x : string) :
  (n < String.length x)%nat -> drop n x <> "".
Proof.
  intros L E. apply (f_equal String.length) in E.
  rewrite length_drop in E. simpl in E. lia.
Qed.

Section PlainTokens.

Variables s e : Z.
Variable message : string.
Hypothesis s_lt_e : s < e.

Lemma plain_unmarked (t : token) : plain t = true -> unmarked t = true.
Proof.
  destruct t as [y|type c al l]; [reflexivity|]. cbn [plain].
  intros P. apply andb_prop in P. apply P.
Qed.

Lemma unmarked_type (type : string) (c : tcontent) (al : alias) (l : Z) :
  unmarked (Tok type c al l) = true ->
  String.eqb type ESLINT_MESSAGE = false
  /\ String.eqb type ESLINT_MARKED = false
  /\ exists y, c = CStr y.
Proof.
  destruct c as [y|t'|ts]; cbn [unmarked]; try discriminate.
  intros U. apply andb_prop in U. destruct U as [U1 U2].
  apply negb_true_iff in U1, U2. repeat split; try assumption.
  exists y. reflexivity.
Qed.

Lemma unmarked_rebuild (t : token) (x : string) :
  unmarked t = true -> unmarked (rebuild t x) = true.
Proof.
  destruct t as [y|type c al l]; [reflexivity|]. intros U.
  destruct (unmarked_type _ _ _ _ U) as (E1 & E2 & _).
  cbn [rebuild newToken unmarked]. rewrite E1, E2. reflexivity.
Qed.

Lemma getTokenContent_rebuild (t : token) (x : string) :
  unmarked t = true -> getTokenContent (rebuild t x) = x.
Proof.
  destruct t as [y|type c al l]; [reflexivity|]. intros U.
  destruct (unmarked_type _ _ _ _ U) as (E1 & _ & _).
  cbn [rebuild newToken getTokenContent]. rewrite E1. reflexivity.
Qed.

Lemma truthy_rebuild (t : token) (x : string) :
  x <> "" -> truthy (rebuild t x) = true.
Proof.
  intros N. destruct t; [|reflexivity]. destruct x; [congruence|reflexivity].
Qed.

Lemma splitToken_plain (t : token) (start : Z) :
  plain t = true ->
  splitToken (Num s, Num e) message t start
  = splitText (rebuild t) (getTokenContent t) (len (getTokenContent t))
      (Num s, Num e) message start.
Proof.
  destruct t as [y|type c al l]; [reflexivity|]. cbn [plain].
  intros P. apply andb_prop in P. destruct P as [U L].
  destruct (unmarked_type _ _ _ _ U) as (E1 & _ & y & ->).
  apply Z.eqb_eq in L. cbn [splitToken token_length]. rewrite <- L.
  reflexivity.
Qed.

Lemma token_after_split_plain (t : token) (res : split_result) :
  plain t = true -> token_after_split t res = t.
Proof.
  intros P. apply plain_unmarked in P.
  destruct t as [y|type [y|t'|ts] al l]; simpl in *; try discriminate;
    reflexivity.
Qed.

Lemma plain_nonempty (t : token) :
  plain t = true -> is_empty (getTokenContent t) = false ->
  getTokenContent t <> "".
Proof. intros _ E N. rewrite N in E. discriminate. Qed.

Lemma forallb_plain_unmarked (ts : list token) :
  forallb plain ts = true -> forallb unmarked ts = true.
Proof.
  induction ts as [|t ts IH]; [reflexivity|]. cbn [forallb].
  intros P. apply andb_prop in P. destruct P as [Pt Pts].
  rewrite (plain_unmarked _ Pt), (IH Pts). reflexivity.
Qed.

Lemma unmarked_yield_if (t : token) (x : string) (b : bool) :
  unmarked t = true ->
  forallb unmarked (yield_if (if b then Some (rebuild t x) else None)) = true.
Proof.
  intros U. destruct b; [|reflexivity]. cbn [yield_if].
  destruct (truthy (rebuild t x)); [|reflexivity].
  cbn [forallb]. rewrite unmarked_rebuild by exact U. reflexivity.
Qed.

(** What is yielded of the parts of a string is a string that is not
    empty. *)
Lemma is_text_yield_if (t : token) (x : string) (b : bool) :
  is_text t = true ->
  forallb is_text
    (yield_if
       (if truthy_opt (if b then Some (rebuild t x) else None)
        then if b then Some (rebuild t x) else None
        else None)) = true.
Proof.
  intros It. destruct t as [y|]; [|discriminate].
  destruct b; [|reflexivity]. cbn [rebuild truthy_opt truthy].
  destruct (is_empty x) eqn:E; cbn [negb yield_if]; [reflexivity|].
  cbn [truthy]. rewrite E. cbn [negb forallb is_text]. rewrite E. reflexivity.
Qed.

(** The inner loop on plain tokens. *)
Lemma merge_next_plain (buffer : list token) :
  forall nts m aft inner,
    forallb plain buffer = true ->
    s < nts ->
    at_content m = (inner ++ [messageToken message])%list ->
    aft = None \/ e <= nts ->
    forallb unmarked (yield_if aft) = true ->
    exists pieces aft' rest,
      merge_next (splitToken (Num s, Num e) message) (Num s, Num e)
        buffer nts m aft
      = (mkArrayToken (at_type m)
           (inner ++ pieces ++ [messageToken message])
           (at_alias m) (at_length m), aft', rest)
      /\ text pieces = take (Z.to_nat (e - nts)) (text buffer)
      /\ text (yield_if aft' ++ rest)
         = text (yield_if aft) ++ drop (Z.to_nat (e - nts)) (text buffer)
      /\ (e <= nts -> pieces = [])
      /\ forallb unmarked (pieces ++ yield_if aft' ++ rest) = true
      /\ (forallb is_text buffer = true ->
          forallb is_text (yield_if aft) = true ->
          forallb is_text (yield_if aft' ++ rest) = true).
Proof.
  induction buffer as [|t buffer IH]; intros nts m aft inner P Hn Hm Ha Ua.
  - exists [], aft, []. cbn [merge_next]. repeat split.
    + destruct m; simpl in *; subst; reflexivity.
    + rewrite take_nil. reflexivity.
    + rewrite drop_nil, app_nil_r, append_nil_r. reflexivity.
    + rewrite app_nil_r. exact Ua.
    + intros _ Ia. rewrite app_nil_r. exact Ia.
  - cbn [forallb] in P. apply andb_prop in P. destruct P as [Pt Pb].
    cbn [merge_next]. cbn [snd num_ltb].
    destruct (nts <? e) eqn:Lt.
    + apply Z.ltb_lt in Lt.
      assert (aft = None) by (destruct Ha; [assumption | lia]). subst aft.
      rewrite token_after_split_plain by exact Pt.
      rewrite splitToken_plain by exact Pt.
      remember (getTokenContent t) as ct eqn:Hct.
      assert (Hlen : len ct = Z.of_nat (String.length ct)) by reflexivity.
      unfold splitText.
      cbn [fst snd num_ltb num_sub to_integer marked after at_type at_content
           at_alias at_length].
      replace (nts <? s) with false by (symmetry; apply Z.ltb_ge; lia).
      cbn [truthy_opt].
      rewrite Hm, removelast_last.
      rewrite slice_nonneg by lia. rewrite slice_from_nonneg by lia.
      replace (Z.to_nat (e - nts) - Z.to_nat 0)%nat with (Z.to_nat (e - nts))
        by lia.
      cbn [drop Z.to_nat].
      set (mark := take (Z.to_nat (e - nts)) ct).
      set (m' := mkArrayToken _ _ _ _).
      set (aft' := if truthy_opt _ then _ else _).
      destruct (IH (nts + len ct) m' aft'
                  (inner ++ [rebuild t mark])%list Pb)
        as (pieces & aft'' & rest & E & Tp & Tr & _ & Up & Ip).
      * pose proof (len_nonneg ct). lia.
      * unfold m'. cbn [at_content]. rewrite <- app_assoc. reflexivity.
      * unfold aft'. destruct (e - nts <? len ct) eqn:C.
        -- right. apply Z.ltb_lt in C. lia.
        -- left. reflexivity.
      * unfold aft'.
        destruct (truthy_opt _);
          [apply unmarked_yield_if; apply plain_unmarked; exact Pt
          | reflexivity].
      * exists (rebuild t mark :: pieces), aft'', rest.
        rewrite E. unfold m'. cbn [at_type at_alias at_length].
        rewrite <- app_assoc. repeat split.
        -- rewrite text_cons, Tp, getTokenContent_rebuild
             by (apply plain_unmarked; exact Pt).
           rewrite (text_cons t), <- Hct. unfold mark.
           destruct (Z.le_gt_cases (e - nts) (len ct)) as [C|C].
           ++ rewrite take_append_l by lia.
              replace (Z.to_nat (e - (nts + len ct))) with 0%nat by lia.
              apply append_nil_r.
           ++ rewrite take_append_r by lia.
              rewrite (take_all _ ct) by lia. f_equal. f_equal. lia.
        -- rewrite Tr. rewrite (text_cons t), <- Hct. unfold aft'.
           cbn [yield_if text map join fold_right].
           destruct (e - nts <? len ct) eqn:C.
           ++ apply Z.ltb_lt in C. cbn [truthy_opt].
              rewrite truthy_rebuild by (apply drop_nonempty; lia).
              cbn [yield_if]. rewrite truthy_rebuild
                by (apply drop_nonempty; lia).
              replace (Z.to_nat (e - (nts + len ct))) with 0%nat by lia.
              cbn [drop]. unfold text. cbn [map join fold_right].
              rewrite getTokenContent_rebuild
                by (apply plain_unmarked; exact Pt).
              rewrite append_nil_r. rewrite drop_append_l by lia. reflexivity.
           ++ apply Z.ltb_ge in C. cbn [truthy_opt yield_if].
              unfold text at 1. cbn [map join fold_right].
              rewrite drop_append_r by lia. cbn [append]. f_equal. lia.
        -- intros. lia.
        -- cbn [app forallb]. rewrite Up.
           rewrite unmarked_rebuild by (apply plain_unmarked; exact Pt).
           reflexivity.
        -- cbn [forallb]. intros It _. apply andb_prop in It.
           destruct It as [It Ib]. apply Ip; [exact Ib|].
           unfold aft'. apply is_text_yield_if. exact It.
    + apply Z.ltb_ge in Lt.
      exists [], aft, (t :: buffer). repeat split.
      * destruct m; simpl in *; subst; reflexivity.
      * replace (Z.to_nat (e - nts)) with 0%nat by lia. reflexivity.
      * replace (Z.to_nat (e - nts)) with 0%nat by lia.
        rewrite text_app. reflexivity.
      * cbn [app]. rewrite forallb_app, Ua. cbn [forallb andb].
        rewrite (plain_unmarked _ Pt), (forallb_plain_unmarked _ Pb).
        reflexivity.
      * intros It Ia. rewrite forallb_app, Ia, It. reflexivity.
Qed.

(** The outer loop on plain tokens, when the range begins inside them. *)
Lemma walk_plain (tokens : list token) :
  forall start,
    forallb plain tokens = true ->
    start <= s ->
    s < start + len (text tokens) ->
    exists pre inner post,
      walk (splitToken (Num s, Num e) message) (Num s, Num e) tokens start
      = (pre
         ++ [Tok ESLINT_MARKED (CArr (inner ++ [messageToken message]))
               (AliasArr (if String.eqb (text inner) LF && (s + 1 =? e)
                          then [ESLINT_MARKED_LINE_FEED] else [])) 0]
         ++ post)%list
      /\ text pre = take (Z.to_nat (s - start)) (text tokens)
      /\ text inner
         = take (Z.to_nat (e - s)) (drop (Z.to_nat (s - start)) (text tokens))
      /\ text post = drop (Z.to_nat (e - start)) (text tokens)
      /\ forallb unmarked (pre ++ inner ++ post) = true
      /\ (forallb is_text tokens = true ->
          forallb is_text (pre ++ post) = true).
Proof.
  induction tokens as [|t tokens IH]; intros start P Hs Hl.
  - unfold text, len in Hl. simpl in Hl. lia.
  - cbn [forallb] in P. apply andb_prop in P. destruct P as [Pt Pts].
    rewrite text_cons in *. rewrite len_append in Hl.
    remember (getTokenContent t) as ct eqn:Hct.
    assert (Hlen : len ct = Z.of_nat (String.length ct)) by reflexivity.
    assert (Tr : truthy t = true).
    { destruct t; [exact Pt | reflexivity]. }
    cbn [walk]. rewrite Tr, <- Hct. cbn [fst num_leb].
    destruct (is_empty ct || (start + len ct <=? s)) eqn:Pass.
    + assert (L : start + len ct <= s).
      { apply orb_prop in Pass. destruct Pass as [E|E].
        - apply is_empty_true in E. rewrite E. unfold len. simpl. lia.
        - apply Z.leb_le in E. exact E. }
      destruct (IH (start + len ct) Pts) as (pre & inner & post & E & T1 & T2
                                              & T3 & U & I); try lia.
      exists (t :: pre), inner, post. rewrite E. repeat split.
      * rewrite text_cons, T1, <- Hct. rewrite take_append_r by lia.
        f_equal. f_equal. lia.
      * rewrite T2. rewrite drop_append_r by lia. f_equal. f_equal. lia.
      * rewrite T3. rewrite drop_append_r by lia. f_equal. lia.
      * cbn [app forallb]. rewrite U, (plain_unmarked _ Pt). reflexivity.
      * cbn [app forallb]. intros It. apply andb_prop in It.
        destruct It as [It Its]. rewrite It, (I Its). reflexivity.
    + apply orb_false_elim in Pass. destruct Pass as [Ne Gt].
      apply Z.leb_gt in Gt. apply is_empty_false in Ne.
      rewrite splitToken_plain by exact Pt. rewrite <- Hct.
      unfold splitText.
      cbn [fst snd num_ltb num_sub num_add num_eqb to_integer before marked
           after].
      set (bef := if start <? s then _ else None).
      assert (Hmark : slice ct (if truthy_opt bef then s - start else 0)
                        (e - start)
                      = take (Z.to_nat (e - s)) (drop (Z.to_nat (s - start)) ct)).
      { rewrite slice_nonneg; [|destruct (truthy_opt bef); lia | lia].
        unfold bef. destruct (start <? s) eqn:C.
        - apply Z.ltb_lt in C. cbn [truthy_opt].
          rewrite truthy_rebuild.
          + f_equal. lia.
          + rewrite slice_nonneg by lia. cbn [Z.to_nat drop].
            apply take_nonempty; [lia|]. intros Z0. rewrite Z0 in Ne.
            unfold len in Ne. simpl in Ne. lia.
        - apply Z.ltb_ge in C. cbn [truthy_opt].
          replace (Z.to_nat (s - start)) with 0%nat by lia.
          f_equal. lia. }
      rewrite Hmark.
      set (mark := take (Z.to_nat (e - s)) (drop (Z.to_nat (s - start)) ct)).
      set (m := mkArrayToken _ _ _ _).
      set (aft := if e - start <? len ct then _ else None).
      destruct (merge_next_plain tokens (start + len ct) m aft
                  [rebuild t mark] Pts)
        as (pieces & aft' & rest & E & Tp & Tr' & Stop & U & I).
      * lia.
      * reflexivity.
      * unfold aft. destruct (e - start <? len ct) eqn:C.
        -- right. apply Z.ltb_lt in C. lia.
        -- left. reflexivity.
      * apply unmarked_yield_if. apply plain_unmarked. exact Pt.
      * rewrite E. unfold m.
        cbn [token_of at_type at_content at_alias at_length].
        exists (yield_if bef), (rebuild t mark :: pieces),
          (yield_if aft' ++ rest)%list.
        assert (Ti : text (rebuild t mark :: pieces)
                     = take (Z.to_nat (e - s))
                         (drop (Z.to_nat (s - start)) (ct ++ text tokens))).
        { rewrite text_cons, Tp, getTokenContent_rebuild
            by (apply plain_unmarked; exact Pt).
          rewrite drop_append_l by lia. unfold mark.
          destruct (Z.le_gt_cases e (start + len ct)) as [C|C].
          - rewrite take_append_l by (rewrite length_drop; lia).
            replace (Z.to_nat (e - (start + len ct))) with 0%nat by lia.
            apply append_nil_r.
          - rewrite take_append_r by (rewrite length_drop; lia).
            rewrite take_all by (rewrite length_drop; lia).
            f_equal. f_equal. rewrite length_drop. lia. }
        repeat split.
        -- f_equal. f_equal. f_equal.
           destruct (s + 1 =? e) eqn:One; [|rewrite !andb_false_r; reflexivity].
           apply Z.eqb_eq in One. rewrite Stop by lia.
           rewrite text_cons, getTokenContent_rebuild
             by (apply plain_unmarked; exact Pt).
           unfold text. cbn [map join fold_right].
           rewrite append_nil_r. reflexivity.
        -- unfold bef. destruct (start <? s) eqn:C.
           ++ apply Z.ltb_lt in C. rewrite slice_nonneg by lia.
              cbn [Z.to_nat drop yield_if].
              rewrite Nat.sub_0_r.
              rewrite truthy_rebuild.
              ** unfold text. cbn [map join fold_right].
                 rewrite getTokenContent_rebuild
                   by (apply plain_unmarked; exact Pt).
                 rewrite append_nil_r, take_append_l by lia. reflexivity.
              ** apply take_nonempty; [lia|]. intros Z0. rewrite Z0 in Ne.
                 unfold len in Ne. simpl in Ne. lia.
           ++ apply Z.ltb_ge in C.
              replace (Z.to_nat (s - start)) with 0%nat by lia. reflexivity.
        -- exact Ti.
        -- rewrite Tr'. unfold aft.
           destruct (e - start <? len ct) eqn:C.
           ++ apply Z.ltb_lt in C. rewrite slice_from_nonneg by lia.
              cbn [yield_if]. rewrite truthy_rebuild
                by (apply drop_nonempty; lia).
              unfold text at 1. cbn [map join fold_right].
              rewrite getTokenContent_rebuild
                by (apply plain_unmarked; exact Pt).
              replace (Z.to_nat (e - (start + len ct))) with 0%nat by lia.
              cbn [drop].
              rewrite append_nil_r. rewrite drop_append_l by lia. reflexivity.
           ++ apply Z.ltb_ge in C. cbn [yield_if].
              unfold text at 1. cbn [map join fold_right append].
              rewrite drop_append_r by lia. f_equal. lia.
        -- rewrite forallb_app. cbn [app forallb]. rewrite U.
           rewrite unmarked_rebuild by (apply plain_unmarked; exact Pt).
           unfold bef. rewrite unmarked_yield_if
             by (apply plain_unmarked; exact Pt).
           reflexivity.
        -- cbn [forallb]. intros It. apply andb_prop in It.
           destruct It as [It Its]. rewrite forallb_app.
           rewrite I; [rewrite andb_true_r | exact Its |].
           ++ unfold bef. destruct t as [y|]; [|discriminate].
              destruct (start <? s); [|reflexivity].
              cbn [rebuild yield_if truthy].
              destruct (is_empty (slice ct 0 (s - start))) eqn:Em;
                cbn [negb forallb is_text]; [reflexivity|].
              rewrite Em. reflexivity.
           ++ unfold aft. destruct t as [y|]; [|discriminate].
              destruct (e - start <? len ct); [|reflexivity].
              cbn [rebuild yield_if truthy].
              destruct (is_empty (slice_from ct (e - start))) eqn:Em;
                cbn [negb forallb is_text]; [reflexivity|].
              rewrite Em. reflexivity.
Qed.

End PlainTokens.

(** ** Tokens before the range *)

(** The tokens that end at or before the start of the range are yielded as
    they are, as long as none of them is an empty string. *)
Lemma walk_passes_prefix (split : token -> Z -> split_result) (s : Z)
    (e : num) (pre rest : list token) :
  forall start,
    forallb truthy pre = true ->
    start + len (text pre) <= s ->
    walk split (Num s, e) (pre ++ rest) start
    = (pre ++ walk split (Num s, e) rest (start + len (text pre)))%list.
Proof.
  induction pre as [|t pre IH]; intros start T L.
  - unfold text, len. simpl. rewrite Z.add_0_r. reflexivity.
  - cbn [forallb] in T. apply andb_prop in T. destruct T as [Tt Tp].
    rewrite text_cons, len_append in *.
    pose proof (len_nonneg (getTokenContent t)).
    pose proof (len_nonneg (text pre)).
    cbn [app walk]. rewrite Tt. cbn [fst num_leb].
    replace (start + len (getTokenContent t) <=? s) with true
      by (symmetry; apply Z.leb_le; lia).
    rewrite orb_true_r. rewrite IH by (assumption || lia).
    rewrite Z.add_assoc. reflexivity.
Qed.

(** A range that starts at or after the end of the text changes nothing, as
    long as no token of the stream is an empty string. *)
Lemma convertMarked_past_the_end (tokens : list token) (s : Z) (e : num)
    (message : string) :
  forallb truthy tokens = true ->
  len (text tokens) <= s ->
  convertMarked tokens (Num s, e) message 0 = tokens.
Proof.
  intros T L. unfold convertMarked.
  rewrite <- (app_nil_r tokens) at 1.
  rewrite walk_passes_prefix by (assumption || lia).
  cbn [walk]. apply app_nil_r.
Qed.

(** ** One range on plain tokens *)

Lemma drop_drop (a b : nat) (x : string) :
  drop a (drop b x) = drop (b + a) x.
Proof.
  revert x. induction b as [|b IH]; intros x; [reflexivity|].
  destruct x as [|c x]; [destruct a; reflexivity | apply IH].
Qed.

(** The three parts that a range cuts a text into. *)
Lemma three_parts (x : string) (s e : nat) :
  (s <= e)%nat ->
  take s x ++ take (e - s) (drop s x) ++ drop e x = x.
Proof.
  intros L. rewrite <- (take_drop s x) at 4. f_equal.
  rewrite <- (take_drop (e - s) (drop s x)) at 2. f_equal.
  rewrite drop_drop. f_equal. lia.
Qed.

Lemma count_types_app (ty : string) (a b : list token) :
  count_types ty (a ++ b) = (count_types ty a + count_types ty b)%nat.
Proof.
  unfold count_types. rewrite map_app, list_sum_app. reflexivity.
Qed.

Lemma count_types_cons (ty : string) (t : token) (ts : list token) :
  count_types ty (t :: ts) = (count_type ty t + count_types ty ts)%nat.
Proof. reflexivity. Qed.

Lemma count_types_unmarked (ty : string) (ts : list token) :
  ty = ESLINT_MARKED \/ ty = ESLINT_MESSAGE ->
  forallb unmarked ts = true ->
  count_types ty ts = 0%nat.
Proof.
  intros Hty. induction ts as [|t ts IH]; [reflexivity|].
  cbn [forallb]. intros U. apply andb_prop in U. destruct U as [Ut Uts].
  rewrite count_types_cons, (IH Uts).
  destruct t as [x|type c al l]; [reflexivity|].
  destruct (unmarked_type _ _ _ _ Ut) as (E1 & E2 & y & ->).
  cbn [count_type].
  destruct Hty as [-> | ->]; [rewrite E2 | rewrite E1]; reflexivity.
Qed.

(** On plain tokens a range that begins inside the text gives one wrapper:
    the tokens before it hold the text up to [s], the wrapper holds the text
    from [s] to [e] and then the message, and the tokens after it hold the
    text from [e]. *)
Theorem plain_tokens_one_range (tokens : list token) (s e : Z)
    (message : string) :
  forallb plain tokens = true ->
  0 <= s < e ->
  s < len (text tokens) ->
  exists pre inner post,
    convertMarked tokens (Num s, Num e) message 0
    = (pre
       ++ [Tok ESLINT_MARKED (CArr (inner ++ [messageToken message]))
             (AliasArr (if String.eqb (text inner) LF && (s + 1 =? e)
                        then [ESLINT_MARKED_LINE_FEED] else [])) 0]
       ++ post)%list
    /\ text pre = slice (text tokens) 0 s
    /\ text inner = slice (text tokens) s e
    /\ text post = slice_from (text tokens) e
    /\ forallb unmarked (pre ++ inner ++ post) = true.
Proof.
  intros P [Hs He] L.
  destruct (walk_plain s e message He tokens 0 P) as
    (pre & inner & post & E & T1 & T2 & T3 & U & _); try lia.
  exists pre, inner, post. unfold convertMarked. rewrite E.
  rewrite !slice_nonneg, slice_from_nonneg by lia.
  rewrite Z.sub_0_r in *. cbn [Z.to_nat drop].
  rewrite Nat.sub_0_r.
  replace (Z.to_nat e - Z.to_nat s)%nat with (Z.to_nat (e - s)) by lia.
  repeat split; assumption.
Qed.

(** The text is kept, and there is one wrapper with one message. *)
Corollary plain_tokens_text_and_counts (tokens : list token) (s e : Z)
    (message : string) :
  forallb plain tokens = true ->
  0 <= s < e ->
  s < len (text tokens) ->
  text (convertMarked tokens (Num s, Num e) message 0) = text tokens
  /\ count_types ESLINT_MARKED (convertMarked tokens (Num s, Num e) message 0)
     = 1%nat
  /\ count_types ESLINT_MESSAGE (convertMarked tokens (Num s, Num e) message 0)
     = 1%nat.
Proof.
  intros P R L.
  destruct (plain_tokens_one_range tokens s e message P R L) as
    (pre & inner & post & E & T1 & T2 & T3 & U).
  rewrite E. rewrite !forallb_app in U.
  apply andb_prop in U. destruct U as [U1 U].
  apply andb_prop in U. destruct U as [U2 U3].
  repeat split.
  - rewrite !text_app. unfold text at 2. cbn [map join fold_right].
    cbn [getTokenContent]. change (String.eqb ESLINT_MARKED ESLINT_MESSAGE)
      with false. cbv iota.
    rewrite map_app, join_app. cbn [map join fold_right getTokenContent].
    fold (text inner). rewrite T1, T2, T3.
    rewrite !slice_nonneg, slice_from_nonneg by lia.
    rewrite !append_nil_r. cbn [Z.to_nat drop]. rewrite Nat.sub_0_r.
    replace (Z.to_nat e - Z.to_nat s)%nat with (Z.to_nat (e - s)) by lia.
    rewrite <- (three_parts (text tokens) (Z.to_nat s) (Z.to_nat e)) at 4
      by lia.
    f_equal. f_equal. f_equal. lia.
  - rewrite !count_types_app.
    rewrite (count_types_unmarked _ pre), (count_types_unmarked _ post)
      by (auto || assumption).
    rewrite count_types_cons. cbn [count_type].
    change (String.eqb ESLINT_MARKED ESLINT_MARKED) with true.
    fold (count_types ESLINT_MARKED (inner ++ [messageToken message])).
    rewrite count_types_app, (count_types_unmarked _ inner)
      by (auto || assumption).
    reflexivity.
  - rewrite !count_types_app.
    rewrite (count_types_unmarked _ pre), (count_types_unmarked _ post)
      by (auto || assumption).
    rewrite count_types_cons. cbn [count_type].
    change (String.eqb ESLINT_MARKED ESLINT_MESSAGE) with false.
    fold (count_types ESLINT_MESSAGE (inner ++ [messageToken message])).
    rewrite count_types_app, (count_types_unmarked _ inner)
      by (auto || assumption).
    reflexivity.
Qed.

(** ** Tokens after the range *)

Lemma is_text_plain (ts : list token) :
  forallb is_text ts = true -> forallb plain ts = true.
Proof.
  induction ts as [|t ts IH]; [reflexivity|]. cbn [forallb].
  intros I. apply andb_prop in I. destruct I as [It Its].
  rewrite (IH Its). destruct t; [|discriminate].
  cbn [plain is_text] in *. rewrite It. reflexivity.
Qed.

Lemma is_text_truthy (ts : list token) :
  forallb is_text ts = true -> forallb truthy ts = true.
Proof.
  induction ts as [|t ts IH]; [reflexivity|]. cbn [forallb].
  intros I. apply andb_prop in I. destruct I as [It Its].
  rewrite (IH Its). destruct t; [|discriminate].
  cbn [truthy is_text] in *. rewrite It. reflexivity.
Qed.

Section Touching.

Variables s e : Z.
Variable message : string.

Lemma merge_next_keeps_suffix (a b : list token) :
  forall nts m aft,
    forallb plain a = true ->
    e <= nts + len (text a) ->
    merge_next (splitToken (Num s, Num e) message) (Num s, Num e)
      (a ++ b) nts m aft
    = let '(m', aft', rest) :=
        merge_next (splitToken (Num s, Num e) message) (Num s, Num e)
          a nts m aft in
      (m', aft', (rest ++ b)%list).
Proof.
  induction a as [|t a IH]; intros nts m aft P L.
  - unfold text, len in L. simpl in L. cbn [app merge_next].
    apply merge_next_stops. simpl. apply Z.ltb_ge. lia.
  - cbn [forallb] in P. apply andb_prop in P. destruct P as [Pt Pa].
    rewrite text_cons, len_append in L.
    cbn [app merge_next]. cbn [snd num_ltb].
    destruct (nts <? e); [|reflexivity].
    rewrite token_after_split_plain by exact Pt.
    apply IH; [exact Pa | lia].
Qed.

Lemma walk_keeps_suffix (a b : list token) :
  forall start,
    forallb plain a = true ->
    start <= s ->
    s < start + len (text a) ->
    e <= start + len (text a) ->
    walk (splitToken (Num s, Num e) message) (Num s, Num e) (a ++ b) start
    = (walk (splitToken (Num s, Num e) message) (Num s, Num e) a start
       ++ b)%list.
Proof.
  induction a as [|t a IH]; intros start P Hs In L.
  - unfold text, len in In. simpl in In. lia.
  - cbn [forallb] in P. apply andb_prop in P. destruct P as [Pt Pa].
    rewrite text_cons, len_append in *.
    cbn [app walk].
    replace (truthy t) with true
      by (destruct t; [symmetry; exact Pt | reflexivity]).
    cbn [fst num_leb].
    destruct (is_empty (getTokenContent t)
              || (start + len (getTokenContent t) <=? s)) eqn:Pass.
    + assert (start + len (getTokenContent t) <= s).
      { apply orb_prop in Pass. destruct Pass as [E|E].
        - apply is_empty_true in E. rewrite E. unfold len. simpl. lia.
        - apply Z.leb_le in E. exact E. }
      rewrite IH by (assumption || lia). reflexivity.
    + rewrite merge_next_keeps_suffix by (assumption || lia).
      destruct (merge_next _ _ a _ _ _) as [[m' aft'] rest].
      cbn [app]. rewrite <- !app_assoc. cbn [app].
      rewrite <- !app_assoc. reflexivity.
Qed.

(** The tokens that end at or before the start of the range and the tokens
    that begin at or after its end are yielded as they are, when the tokens
    between them are plain. *)
Theorem tokens_around_the_range_pass (pre mid post : list token) :
  forallb truthy pre = true ->
  forallb plain mid = true ->
  len (text pre) <= s ->
  s < len (text pre) + len (text mid) ->
  e <= len (text pre) + len (text mid) ->
  convertMarked (pre ++ mid ++ post) (Num s, Num e) message 0
  = (pre ++ convertMarked mid (Num s, Num e) message (len (text pre))
     ++ post)%list.
Proof.
  intros T P L In Le. unfold convertMarked.
  rewrite walk_passes_prefix by (assumption || lia).
  rewrite Z.add_0_l. rewrite walk_keeps_suffix by (assumption || lia).
  reflexivity.
Qed.

End Touching.

(** ** Two ranges that touch, on strings *)



(** ** Sorted ranges on strings *)

Lemma len_take_le (n : nat) (x : string) : len (take n x) <= Z.of_nat n.
Proof. unfold len. rewrite length_take. lia. Qed.

(** One range of a sorted sequence, applied to tokens that are done with
    followed by strings: the tokens done with are passed, and the wrapper
    joins them. *)
Lemma sorted_range_step (done todo : list token) (s e : Z) (message : string) :
  forallb truthy done = true ->
  forallb is_text todo = true ->
  len (text done) <= s ->
  s < e ->
  exists done' todo',
    convertMarked (done ++ todo) (Num s, Num e) message 0
    = (done' ++ todo')%list
    /\ forallb truthy done' = true
    /\ forallb is_text todo' = true
    /\ len (text done') <= e
    /\ text (done' ++ todo') = text (done ++ todo).
Proof.
  intros Td It L Lt.
  pose proof (len_nonneg (text done)) as Hd.
  destruct (Z.lt_ge_cases s (len (text done) + len (text todo))) as [In|Out].
  - unfold convertMarked.
    rewrite walk_passes_prefix by (assumption || lia).
    destruct (walk_plain s e message Lt todo (0 + len (text done))
                (is_text_plain _ It))
      as (pre & inner & post & E & T1 & T2 & T3 & _ & I); try lia.
    specialize (I It). rewrite forallb_app in I.
    apply andb_prop in I. destruct I as [Ipre Ipost].
    rewrite E.
    set (w := Tok ESLINT_MARKED _ _ 0).
    exists (done ++ pre ++ [w])%list, post.
    assert (Tw : getTokenContent w = text inner).
    { unfold w. cbn [getTokenContent].
      change (String.eqb ESLINT_MARKED ESLINT_MESSAGE) with false. cbv iota.
      rewrite map_app, join_app. cbn [map join fold_right getTokenContent].
      rewrite !append_nil_r. reflexivity. }
    assert (Td' : text (done ++ pre ++ [w])
                  = text done ++ text pre ++ text inner).
    { rewrite !text_app. unfold text at 3. cbn [map join fold_right].
      rewrite Tw, append_nil_r. reflexivity. }
    repeat split.
    + rewrite <- !app_assoc. reflexivity.
    + rewrite !forallb_app, Td, (is_text_truthy _ Ipre). reflexivity.
    + exact Ipost.
    + rewrite Td', !len_append, T1, T2.
      pose proof (len_take_le (Z.to_nat (s - (0 + len (text done))))
                    (text todo)).
      pose proof (len_take_le (Z.to_nat (e - s))
                    (drop (Z.to_nat (s - (0 + len (text done))))
                       (text todo))).
      lia.
    + rewrite (text_app _ post), Td', (text_app done todo), T1, T2, T3.
      rewrite !append_assoc. f_equal.
      rewrite <- (three_parts (text todo)
                    (Z.to_nat (s - (0 + len (text done))))
                    (Z.to_nat (e - (0 + len (text done))))) at 4 by lia.
      f_equal. f_equal. f_equal. lia.
  - exists done, todo.
    rewrite convertMarked_past_the_end.
    + repeat split; try assumption. lia.
    + rewrite forallb_app, Td, (is_text_truthy _ It). reflexivity.
    + rewrite text_app, len_append. lia.
Qed.

Lemma sorted_ranges_keep_text (ranges : list message_range) :
  forall done todo from,
    forallb truthy done = true ->
    forallb is_text todo = true ->
    len (text done) <= from ->
    sorted_from from ranges ->
    text (applyRanges ranges (done ++ todo)) = text (done ++ todo).
Proof.
  induction ranges as [|mr ranges IH]; intros done todo from Td It L S.
  - reflexivity.
  - destruct S as (s & e & R & Hs & He & S).
    cbn [applyRanges fold_left]. rewrite R.
    destruct (sorted_range_step done todo s e (mr_message mr) Td It)
      as (done' & todo' & E & Td' & It' & L' & T); try lia.
    rewrite E, <- T. apply (IH done' todo' e); assumption.
Qed.

(** On a stream of strings, none of them empty, any sequence of ranges that
    are sorted and do not overlap keeps the text. *)
Theorem strings_sorted_ranges_keep_text (tokens : list token)
    (ranges : list message_range) :
  forallb is_text tokens = true ->
  sorted_from 0 ranges ->
  text (applyRanges ranges tokens) = text tokens.
Proof.
  intros It S.
  apply (sorted_ranges_keep_text ranges [] tokens 0); auto.
  unfold text, len. simpl. lia.
Qed.

(** ** The splitter on the examples of the specification *)

(** In [splitToken] a content that is no string is converted as the buffer
    [flat content]. *)
Lemma splitToken_nested (r : range) (message type : string)
    (content : tcontent) (al : alias) (l tokenStart : Z) :
  (forall x, content <> CStr x) ->
  splitToken r message (Tok type content al l) tokenStart
  = mkSplit None
      (mkArrayToken type (convertMarked (flat content) r message tokenStart)
         al l)
      None.
Proof.
  intros N. destruct content as [x|t|ts]; [destruct (N x)|..]; reflexivity.
Qed.

(** The five scenarios: a range inside one string, a range over one whole
    token, a range over three strings, a range past the end, and two ranges
    that touch. *)
Lemma scenarios :
  convertMarked [Str "abcdef"] (Num 2, Num 4) "M" 0
  = [Str "ab"; wrapper (Str "cd") "M" false; Str "ef"]
  /\ convertMarked
       [Tok "keyword" (CStr "const") AliasUndefined 5; Str " ";
        Tok "ident" (CStr "x") AliasUndefined 1] (Num 0, Num 5) "M" 0
     = [wrapper (Tok "keyword" (CStr "const") AliasUndefined 0) "M" false;
        Str " "; Tok "ident" (CStr "x") AliasUndefined 1]
  /\ convertMarked [Str "ab"; Str "cd"; Str "ef"] (Num 1, Num 5) "M" 0
     = [Str "a";
        Tok ESLINT_MARKED
          (CArr [Str "b"; Str "cd"; Str "e"; messageToken "M"])
          (AliasArr []) 0;
        Str "f"]
  /\ convertMarked [Str "abcdef"] (Num 10, Num 12) "M" 0 = [Str "abcdef"]
  /\ convertMarked (convertMarked [Str "abcd"] (Num 0, Num 2) "M1" 0)
       (Num 2, Num 4) "M2" 0
     = [wrapper (Str "ab") "M1" false; wrapper (Str "cd") "M2" false].
Proof. repeat split; reflexivity. Qed.

(** ** The claims about the splitter *)

(** C1, where the code departs from the claim: the text of the tree is not
    always kept.  A range that begins in a token with nested content and ends
    in the next token loses the part inside the nested token, because the
    merge pops the wrapper built inside it; and a second report inside a token
    with string content loses the tail of the token, because a rebuilt token
    has length 0.  The model on the store gives the same trees. *)
Theorem C1_text_is_lost :
  text nested_then_text = "xyzw"
  /\ convertMarked nested_then_text (Num 1, Num 3) "M" 0
     = [Tok "template-string" (CArr [Str "x"; Str "z"; messageToken "M"])
          AliasUndefined 2;
        Str "w"]
  /\ text (convertMarked nested_then_text (Num 1, Num 3) "M" 0) = "xzw"
  /\ text one_string_token = "abcdef"
  /\ text (convertMarked
             (convertMarked one_string_token (Num 1, Num 2) "M1" 0)
             (Num 3, Num 4) "M2" 0) = "abcd"
  /\ store_run_trees
       (Store.convertMarked 8%nat [Store.VRef 0%nat; Store.VStr "zw"]
          (Num 1, Num 3) "M" 0 nested_then_text_heap)
     = Some (convertMarked nested_then_text (Num 1, Num 3) "M" 0)
  /\ store_run_trees
       (Store.bind
          (Store.convertMarked 8%nat [Store.VRef 0%nat] (Num 1, Num 2) "M1" 0)
          (fun out => Store.convertMarked 8%nat out (Num 3, Num 4) "M2" 0)
          one_string_token_heap)
     = Some (convertMarked
               (convertMarked one_string_token (Num 1, Num 2) "M1" 0)
               (Num 3, Num 4) "M2" 0).
Proof. repeat split; vm_compute; reflexivity. Qed.

(** C2, where the code departs from the claim: one range does not always
    give one wrapper.  When the range begins in a token with nested content
    and goes on into the next token, no [eslint-marked] token is left; when it
    ends in a token with nested content, there are two of them for one
    message.  The model on the store gives the same trees. *)
Theorem C2_wrapper_count_varies :
  count_types ESLINT_MARKED
    (convertMarked nested_then_text (Num 1, Num 3) "M" 0) = 0%nat
  /\ count_types ESLINT_MESSAGE
       (convertMarked nested_then_text (Num 1, Num 3) "M" 0) = 1%nat
  /\ count_types ESLINT_MARKED
       (convertMarked text_then_nested (Num 1, Num 3) "M" 0) = 2%nat
  /\ count_types ESLINT_MESSAGE
       (convertMarked text_then_nested (Num 1, Num 3) "M" 0) = 1%nat
  /\ store_run_trees
       (Store.convertMarked 8%nat [Store.VRef 0%nat; Store.VStr "zw"]
          (Num 1, Num 3) "M" 0 nested_then_text_heap)
     = Some (convertMarked nested_then_text (Num 1, Num 3) "M" 0)
  /\ store_run_trees
       (Store.convertMarked 8%nat [Store.VStr "xy"; Store.VRef 0%nat]
          (Num 1, Num 3) "M" 0 text_then_nested_heap)
     = Some (convertMarked text_then_nested (Num 1, Num 3) "M" 0).
Proof. repeat split; vm_compute; reflexivity. Qed.

(** C3, where the code departs from the claim: for the text ["xyzw"] and the
    range [1, 3) the wrapper holds ["yzw"], not ["yz"], and nothing comes
    after it, in the model on the store as well. *)
Theorem C3_wrapper_text_too_long :
  exists w,
    convertMarked text_then_nested (Num 1, Num 3) "M" 0 = [Str "x"; w]
    /\ getTokenContent w = "yzw"
    /\ text text_then_nested = "xyzw"
    /\ slice "xyzw" 1 3 = "yz"
    /\ slice_from "xyzw" 3 = "w"
    /\ store_run_trees
         (Store.convertMarked 8%nat [Store.VStr "xy"; Store.VRef 0%nat]
            (Num 1, Num 3) "M" 0 text_then_nested_heap)
       = Some [Str "x"; w].
Proof. eexists. repeat split; vm_compute; reflexivity. Qed.

(** C4, where the code departs from the claim: a range past the end does not
    leave every tree as it is.  The walk stops at an empty string: the tokens
    of the empty code lose their one token, and tokens after an empty string
    are lost with their text, in the model on the store as well. *)
Theorem C4_out_of_bounds_range_truncates :
  convertMarked [Str ""] (Num 0, Num 1) "M" 0 = []
  /\ convertMarked [Str "ab"; Str ""; Str "cd"] (Num 10, Num 12) "M" 0
     = [Str "ab"]
  /\ store_run_trees
       (Store.convertMarked 8%nat [Store.VStr ""] (Num 0, Num 1) "M" 0 [])
     = Some []
  /\ store_run_trees
       (Store.convertMarked 8%nat
          [Store.VStr "ab"; Store.VStr ""; Store.VStr "cd"]
          (Num 10, Num 12) "M" 0 [])
     = Some [Str "ab"].
Proof. repeat split; reflexivity. Qed.

(** C5, where the code departs from the claim: the token ["w"] begins at
    offset 3, where the range [1, 3) ends, and yet it ends up inside the
    wrapper; the range [3, 4) applied next puts its wrapper inside the first
    one.  The model on the store gives the same tree. *)
Theorem C5_touching_token_is_consumed :
  convertMarked text_then_nested (Num 1, Num 3) "M1" 0
  = [Str "x";
     Tok ESLINT_MARKED
       (CArr [Str "y"; wrapper (Str "z") "M1" false; Str "w"])
       (AliasArr []) 0]
  /\ convertMarked
       (convertMarked text_then_nested (Num 1, Num 3) "M1" 0)
       (Num 3, Num 4) "M2" 0
     = [Str "x";
        Tok ESLINT_MARKED
          (CArr [Str "y"; wrapper (Str "z") "M1" false;
                 wrapper (Str "w") "M2" false])
          (AliasArr []) 0]
  /\ store_run_trees
       (Store.bind
          (Store.convertMarked 8%nat [Store.VStr "xy"; Store.VRef 0%nat]
             (Num 1, Num 3) "M1" 0)
          (fun out => Store.convertMarked 8%nat out (Num 3, Num 4) "M2" 0)
          text_then_nested_heap)
     = Some (convertMarked
               (convertMarked text_then_nested (Num 1, Num 3) "M1" 0)
               (Num 3, Num 4) "M2" 0).
Proof. repeat split; vm_compute; reflexivity. Qed.

(** C6, as the code has it: on a tree without empty strings, whatever the
    nesting of its tokens, a range of length one that covers the character
    [c] of the text gives a wrapper that holds that one character and the
    message, and the wrapper has the alias [eslint-marked-line-feed] exactly
    when [c] is the line feed, the one line break that the code tests for. *)
Theorem C6_line_feed_tag (tokens : list token) (s : Z) (message : string)
    (c : ascii) :
  forallb solid tokens = true ->
  0 <= s ->
  get (Z.to_nat s) (text tokens) = Some c ->
  exists inner,
    getTokenContent inner = String c ""
    /\ occurs_in (wrapper inner message (Ascii.eqb c (ascii_of_nat 10)))
         (convertMarked tokens (Num s, Num (s + 1)) message 0).
Proof.
  intros S Hs G.
  assert (All : Forall (splits_one s message) tokens).
  { apply Forall_forall. intros t _. apply splitToken_one. }
  destruct (walk_one s message tokens All 0 c S Hs) as (inner & T & O).
  - rewrite Z.sub_0_r. exact G.
  - exists inner. split; [exact T|].
    replace (Ascii.eqb c (ascii_of_nat 10))
      with (String.eqb (String c "") LF); [exact O|].
    unfold LF. cbn [String.eqb].
    destruct (Ascii.eqb c (ascii_of_nat 10)); reflexivity.
Qed.

(** C6 on a line feed inside a token with nested content, and on the letter
    before it. *)
Lemma C6_line_feed_tag_witness :
  (exists inner,
      getTokenContent inner = LF
      /\ occurs_in (wrapper inner "M" true)
           (convertMarked line_feed_tokens (Num 1, Num (1 + 1)) "M" 0))
  /\ (exists inner,
         getTokenContent inner = "a"
         /\ occurs_in (wrapper inner "M" false)
              (convertMarked line_feed_tokens (Num 0, Num (0 + 1)) "M" 0)).
Proof.
  split.
  - apply (C6_line_feed_tag line_feed_tokens 1 "M" (ascii_of_nat 10));
      [reflexivity | lia | reflexivity].
  - apply (C6_line_feed_tag line_feed_tokens 0 "M" "a"%char);
      [reflexivity | lia | reflexivity].
Defined.

(** C6 as stated fails.  The carriage return is a line-break character, and
    the wrapper of a range of length one over it has no
    [eslint-marked-line-feed] alias: the code tests for the line feed alone.
    And on a stream that begins with an empty string a range of length one
    over a line feed gives no wrapper at all: the walk stops at the empty
    string. *)
Lemma C6_carriage_return_gets_no_tag :
  convertMarked [Str ("a" ++ CR ++ "b")] (Num 1, Num 2) "M" 0
  = [Str "a"; wrapper (Str CR) "M" false; Str "b"]
  /\ convertMarked [Str ""; Str LF] (Num 0, Num 1) "M" 0 = [].
Proof. split; reflexivity. Qed.

(** C7, where the code departs from the claim: an empty string before the
    range is not passed through.  The walk stops at it, and neither it nor the
    tokens after it are yielded; without the empty string the same range gives
    a wrapper and the rest of the text, and an empty string after the range is
    passed through.  The model on the store stops at the empty string as
    well. *)
Theorem C7_empty_string_stops_the_walk :
  convertMarked [Str ""; Str "ab"] (Num 0, Num 1) "M" 0 = []
  /\ convertMarked [Str ""] (Num 5, Num 6) "M" 0 = []
  /\ convertMarked [Str "ab"] (Num 0, Num 1) "M" 0
     = [wrapper (Str "a") "M" false; Str "b"]
  /\ convertMarked [Str "ab"; Str ""; Str "cd"] (Num 0, Num 1) "M" 0
     = [wrapper (Str "a") "M" false; Str "b"; Str ""; Str "cd"]
  /\ store_run_trees
       (Store.convertMarked 8%nat [Store.VStr ""; Store.VStr "ab"]
          (Num 0, Num 1) "M" 0 [])
     = Some [].
Proof. repeat split; reflexivity. Qed.

(** ** The hook *)

Section HookProperties.

Context `{Collaborators}.

Lemma differs_false (registered : option string) (c : string) :
  differs registered c = false <-> registered = Some c.
Proof.
  destruct registered as [content|]; simpl.
  - rewrite negb_false_iff, String.eqb_eq. split; congruence.
  - split; discriminate.
Qed.

Lemma differs_true (registered : option string) (c : string) :
  differs registered c = true <-> registered <> Some c.
Proof.
  rewrite <- differs_false. destruct (differs registered c); split; congruence.
Qed.

(** A location on a line of the table is the start of the line plus the
    column, both counted from 1. *)
Lemma getIndexFromLoc_in_table (indices : list Z) (line column i : Z) :
  1 <= line ->
  nth_error indices (Z.to_nat (line - 1)) = Some i ->
  getIndexFromLoc indices line column = Num (i + column - 1).
Proof.
  intros L N. unfold getIndexFromLoc.
  replace (line - 1 <? 0) with false by (symmetry; apply Z.ltb_ge; lia).
  rewrite N. reflexivity.
Qed.

(** The first line starts at offset 0. *)
Lemma lineStartIndices_first (c : string) :
  nth_error (lineStartIndices c) 0 = Some 0.
Proof. reflexivity. Qed.

Lemma messageRanges_length (c : string) (messages : list lint_message) :
  List.length (messageRanges c messages) = List.length messages.
Proof. unfold messageRanges. apply length_map. Qed.

Lemma messageRanges_messages (c : string) (messages : list lint_message) :
  map mr_message (messageRanges c messages) = map lm_message messages.
Proof.
  unfold messageRanges. rewrite map_map. apply map_ext. reflexivity.
Qed.

Lemma no_fatal_message (messages : list lint_message) :
  existsb lm_fatal messages = false ->
  Forall (fun m => lm_fatal m = false) messages.
Proof.
  induction messages as [|m messages IH]; simpl; intros E.
  - constructor.
  - apply orb_false_iff in E. destruct E. constructor; auto.
Qed.

(** C8: when the content is the registered one and the linter reports a
    fatal message, the hook returns with [env] as it was and no range is
    applied; when no message is fatal, the tokens are the result of applying
    the entries of [messageRanges] in order, one entry for each message. *)
Theorem C8_fatal_messages_are_withheld
    (st : module_state) (e : env) (parserOptions : ParserOptions) :
  contentMustBeMarked st = Some (code e) ->
  contentParserOptions st = Some parserOptions ->
  let messages :=
    linter_verify (docsExampleCodeToParsableCode (code e)) parserOptions in
  let ranges := messageRanges (code e) messages in
  (existsb lm_fatal messages = true ->
   afterTokenize st e = (mkState None (Some parserOptions), Returned e))
  /\ (existsb lm_fatal messages = false ->
      afterTokenize st e
      = (mkState None (Some parserOptions),
         Returned (mkEnv (code e) (applyRanges ranges (tokens e))))
      /\ List.length ranges = List.length messages
      /\ map mr_message ranges = map lm_message messages
      /\ Forall (fun m => lm_fatal m = false) messages).
Proof.
  intros Hreg Hopt messages ranges.
  assert (D : differs (contentMustBeMarked st) (code e) = false)
    by (apply differs_false; exact Hreg).
  unfold afterTokenize. rewrite D, Hopt. fold messages.
  split; intros F; rewrite F.
  - reflexivity.
  - repeat split.
    + apply messageRanges_length.
    + apply messageRanges_messages.
    + apply no_fatal_message; exact F.
Qed.

(** C10: the hook leaves the state and [env] alone unless the code is the
    registered content; when it is, the registration is cleared whatever
    happens next, so that the hook leaves any later tokenization alone, of
    the same code too, until a content is registered again; and a
    registration replaces the one before it. *)
Theorem C10_registered_content_is_marked_once :
  (forall (st : module_state) (e : env),
      contentMustBeMarked st <> Some (code e) ->
      afterTokenize st e = (st, Returned e))
  /\ (forall (st : module_state) (e : env),
         contentMustBeMarked st = Some (code e) ->
         contentMustBeMarked (fst (afterTokenize st e)) = None)
  /\ (forall (st : module_state) (e e' : env),
         contentMustBeMarked st = Some (code e) ->
         afterTokenize (fst (afterTokenize st e)) e'
         = (fst (afterTokenize st e), Returned e'))
  /\ (forall (st : module_state) (e : env) (options : ParserOptions),
         afterTokenize (addContentMustBeMarked (code e) options st) e
         = (mkState None (Some options),
            let messages :=
              linter_verify (docsExampleCodeToParsableCode (code e))
                options in
            Returned
              (if existsb lm_fatal messages then e
               else mkEnv (code e)
                      (applyRanges (messageRanges (code e) messages)
                         (tokens e)))))
  /\ (forall (st : module_state) (c1 c2 : string)
             (o1 o2 : ParserOptions) (e : env),
         code e <> c2 ->
         afterTokenize
           (addContentMustBeMarked c2 o2 (addContentMustBeMarked c1 o1 st)) e
         = (addContentMustBeMarked c2 o2 (addContentMustBeMarked c1 o1 st),
            Returned e)).
Proof.
  assert (cleared : forall (st : module_state) (e : env),
             contentMustBeMarked st = Some (code e) ->
             contentMustBeMarked (fst (afterTokenize st e)) = None).
  { intros st e Hreg. unfold afterTokenize.
    apply differs_false in Hreg. rewrite Hreg.
    destruct (contentParserOptions st); [|reflexivity].
    destruct (existsb _ _); reflexivity. }
  assert (ignored : forall (st : module_state) (e : env),
             contentMustBeMarked st <> Some (code e) ->
             afterTokenize st e = (st, Returned e)).
  { intros st e Hne. unfold afterTokenize.
    apply differs_true in Hne. rewrite Hne. reflexivity. }
  repeat split.
  - exact ignored.
  - exact cleared.
  - intros st e e' Hreg. apply ignored.
    rewrite (cleared st e Hreg). discriminate.
  - intros st e options. unfold afterTokenize, addContentMustBeMarked.
    simpl. rewrite String.eqb_refl. simpl.
    destruct (existsb _ _); reflexivity.
  - intros st c1 c2 o1 o2 e Hne. apply ignored.
    simpl. congruence.
Qed.

End HookProperties.

(** The two cases of C8 at the example collaborators: the code ["("] gets a
    fatal message, the code ["var"] a plain one. *)
Lemma C8_fatal_messages_are_withheld_witness :
  afterTokenize (example_state (Some "(")) (mkEnv "(" [Str "("])
  = (example_state None, Returned (mkEnv "(" [Str "("]))
  /\ afterTokenize (example_state (Some "var")) (mkEnv "var" [Str "var"])
     = (example_state None,
        Returned (mkEnv "var" [wrapper (Str "v") "Unexpected var" false;
                               Str "ar"])).
Proof.
  split.
  - apply (@C8_fatal_messages_are_withheld example_collaborators
             (example_state (Some "(")) (mkEnv "(" [Str "("]) tt
             eq_refl eq_refl).
    reflexivity.
  - apply (@C8_fatal_messages_are_withheld example_collaborators
             (example_state (Some "var")) (mkEnv "var" [Str "var"]) tt
             eq_refl eq_refl).
    reflexivity.
Defined.

(** C10 at the example collaborators: a tokenization of another code, and a
    second tokenization of the registered code. *)
Lemma C10_registered_content_is_marked_once_witness :
  afterTokenize (example_state (Some "var")) (mkEnv "let" [Str "let"])
  = (example_state (Some "var"), Returned (mkEnv "let" [Str "let"]))
  /\ (let st := example_state (Some "var") in
      let e := mkEnv "var" [Str "var"] in
      afterTokenize (fst (afterTokenize st e)) e
      = (fst (afterTokenize st e), Returned e)).
Proof.
  destruct (@C10_registered_content_is_marked_once example_collaborators)
    as (ignored & _ & once & _).
  split.
  - apply ignored. simpl. discriminate.
  - apply once. reflexivity.
Defined.

(** ** The two models of the splitter *)

(** The store model and the tree model give the same trees on the inputs of
    the examples: a range from a token with nested content into the next
    token, a range that ends in a token with nested content, two ranges in a
    token with string content, a range on a line feed inside a token, and
    streams with an empty string. *)
Lemma store_and_tree_models_agree_on_examples :
  Store.trees 8%nat nested_then_text_heap [Store.VRef 0%nat; Store.VStr "zw"]
  = Some nested_then_text
  /\ store_run_trees
       (Store.convertMarked 8%nat [Store.VRef 0%nat; Store.VStr "zw"]
          (Num 1, Num 3) "M" 0 nested_then_text_heap)
     = Some (convertMarked nested_then_text (Num 1, Num 3) "M" 0)
  /\ Store.trees 8%nat text_then_nested_heap [Store.VStr "xy"; Store.VRef 0%nat]
     = Some text_then_nested
  /\ store_run_trees
       (Store.convertMarked 8%nat [Store.VStr "xy"; Store.VRef 0%nat]
          (Num 1, Num 3) "M" 0 text_then_nested_heap)
     = Some (convertMarked text_then_nested (Num 1, Num 3) "M" 0)
  /\ store_run_trees
       (Store.bind
          (Store.convertMarked 8%nat [Store.VStr "xy"; Store.VRef 0%nat]
             (Num 1, Num 3) "M1" 0)
          (fun out => Store.convertMarked 8%nat out (Num 3, Num 4) "M2" 0)
          text_then_nested_heap)
     = Some (convertMarked
               (convertMarked text_then_nested (Num 1, Num 3) "M1" 0)
               (Num 3, Num 4) "M2" 0)
  /\ Store.trees 8%nat one_string_token_heap [Store.VRef 0%nat]
     = Some one_string_token
  /\ store_run_trees
       (Store.bind
          (Store.convertMarked 8%nat [Store.VRef 0%nat] (Num 1, Num 2) "M1" 0)
          (fun out => Store.convertMarked 8%nat out (Num 3, Num 4) "M2" 0)
          one_string_token_heap)
     = Some (convertMarked
               (convertMarked one_string_token (Num 1, Num 2) "M1" 0)
               (Num 3, Num 4) "M2" 0)
  /\ Store.trees 8%nat line_feed_tokens_heap [Store.VStr "a"; Store.VRef 0%nat]
     = Some line_feed_tokens
  /\ store_run_trees
       (Store.convertMarked 8%nat [Store.VStr "a"; Store.VRef 0%nat]
          (Num 1, Num 2) "M" 0 line_feed_tokens_heap)
     = Some (convertMarked line_feed_tokens (Num 1, Num 2) "M" 0)
  /\ store_run_trees
       (Store.convertMarked 8%nat [Store.VStr ""] (Num 0, Num 1) "M" 0 [])
     = Some (convertMarked [Str ""] (Num 0, Num 1) "M" 0)
  /\ store_run_trees
       (Store.convertMarked 8%nat [Store.VStr ""; Store.VStr "ab"]
          (Num 0, Num 1) "M" 0 [])
     = Some (convertMarked [Str ""; Str "ab"] (Num 0, Num 1) "M" 0)
  /\ store_run_trees
       (Store.convertMarked 8%nat
          [Store.VStr "ab"; Store.VStr ""; Store.VStr "cd"]
          (Num 10, Num 12) "M" 0 [])
     = Some (convertMarked [Str "ab"; Str ""; Str "cd"]
               (Num 10, Num 12) "M" 0).
Proof. repeat split; vm_compute; reflexivity. Qed.

(** ** The splitter on the store: what happens to the tokens given *)

Module StoreFacts.

Import Store.

Lemma preserved_refl (o : object) : preserved o o.
Proof.
  unfold preserved. repeat split.
  destruct (o_content o); congruence.
Qed.

Lemma preserved_trans (o1 o2 o3 : object) :
  preserved o1 o2 -> preserved o2 o3 -> preserved o1 o3.
Proof.
  unfold preserved. intros (T1 & A1 & L1 & C1) (T2 & A2 & L2 & C2).
  repeat split; try congruence.
  destruct (o_content o1).
  - rewrite C1 in C2. exact C2.
  - destruct (o_content o2); [destruct (C1 s); reflexivity | exact C2 ..].
  - destruct (o_content o2); [destruct (C1 s); reflexivity | exact C2 ..].
Qed.

Lemma frame_refl (h : heap) : frame h h.
Proof. intros l o R. exists o. split; [exact R | apply preserved_refl]. Qed.

Lemma frame_trans (h1 h2 h3 : heap) :
  frame h1 h2 -> frame h2 h3 -> frame h1 h3.
Proof.
  intros F12 F23 l o R.
  destruct (F12 l o R) as (o2 & R2 & P2).
  destruct (F23 l o2 R2) as (o3 & R3 & P3).
  exists o3. split; [exact R3 | eapply preserved_trans; eassumption].
Qed.

Lemma read_update_same (h : heap) (l : loc) (o o' : object) :
  read h l = Some o -> read (update h l o') l = Some o'.
Proof.
  unfold read. revert l.
  induction h as [|x h IH]; intros [|l]; simpl; try discriminate; auto.
Qed.

Lemma read_update_other (h : heap) (l l' : loc) (o' : object) :
  l <> l' -> read (update h l o') l' = read h l'.
Proof.
  unfold read. revert l l'.
  induction h as [|x h IH]; intros [|l] [|l'] N; simpl; try congruence.
  apply IH. congruence.
Qed.

Lemma frame_alloc (h : heap) (o : object) : frame h (h ++ [o])%list.
Proof.
  intros l x R. exists x. split; [|apply preserved_refl].
  unfold read in *. rewrite nth_error_app1; [exact R|].
  apply nth_error_Some. congruence.
Qed.

(** Assigning an array to the content of a token whose content is no string
    is within the frame. *)
Lemma frame_set_array (h : heap) (l : loc) (o : object) (vs : list value) :
  read h l = Some o ->
  (forall s, o_content o <> HStr s) ->
  frame h (update h l (mkObject (o_type o) (HArr vs) (o_alias o) (o_length o))).
Proof.
  intros R N l' x R'.
  destruct (Nat.eq_dec l l') as [<-|D].
  - rewrite (read_update_same _ _ _ _ R). eexists. split; [reflexivity|].
    assert (x = o) by congruence. subst x.
    unfold preserved. simpl. repeat split.
    destruct (o_content o); [destruct (N s); reflexivity | discriminate ..].
  - rewrite (read_update_other _ _ _ _ D). exists x.
    split; [exact R' | apply preserved_refl].
Qed.

Lemma frames_ret {A : Type} (a : A) : frames (ret a).
Proof. intros h h' x E. inversion E. apply frame_refl. Qed.

Lemma frames_fail {A : Type} : frames (@fail A).
Proof. intros h h' x E. discriminate. Qed.

Lemma frames_bind {A B : Type} (c : M A) (k : A -> M B) :
  frames c -> (forall a, frames (k a)) -> frames (bind c k).
Proof.
  intros Fc Fk h h' b E. unfold bind in E.
  destruct (c h) as [[h1 a]|] eqn:Ec; [|discriminate].
  eapply frame_trans; [eapply Fc | eapply Fk]; eassumption.
Qed.

Lemma frames_new_token (type : string) (c : content) (al : alias) :
  frames (new_token type c al).
Proof. intros h h' l E. inversion E. apply frame_alloc. Qed.

Lemma frames_get (l : loc) : frames (get l).
Proof.
  intros h h' o E. unfold get in E.
  destruct (read h l); inversion E. apply frame_refl.
Qed.

Lemma frames_get_array (l : loc) : frames (get_array l).
Proof.
  apply frames_bind; [apply frames_get|].
  intros o. destruct (o_content o);
    [apply frames_fail | apply frames_fail | apply frames_ret].
Qed.

Lemma frames_content_of (fuel : nat) (v : value) : frames (content_of fuel v).
Proof.
  intros h h' s E. unfold content_of in E.
  destruct (getTokenContent fuel h v); inversion E. apply frame_refl.
Qed.

Lemma get_array_inv (l : loc) (h h' : heap) (vs : list value) :
  get_array l h = Some (h', vs) ->
  h' = h /\ exists o, read h l = Some o /\ o_content o = HArr vs.
Proof.
  unfold get_array, bind, get, ret, fail. intros E.
  destruct (read h l) as [o|] eqn:R; [|discriminate].
  destruct (o_content o) as [s|l'|ws] eqn:C; try discriminate.
  inversion E. subst. split; [reflexivity|]. exists o. split; congruence.
Qed.

(** Replacing the array of a token by another array. *)
Lemma frames_modify_array (l : loc) (f : list value -> list value) :
  frames (bind (get_array l) (fun mine => set_content l (HArr (f mine)))).
Proof.
  intros h h' u E. unfold bind in E.
  destruct (get_array l h) as [[h1 mine]|] eqn:G; [|discriminate].
  apply get_array_inv in G. destruct G as (-> & o & R & C).
  unfold set_content in E. rewrite R in E. inversion E.
  apply frame_set_array; [exact R|]. intros s. rewrite C. discriminate.
Qed.

Lemma frames_pop_content (l : loc) : frames (pop_content l).
Proof. apply frames_modify_array. Qed.

Lemma frames_push_content (l : loc) (vs : list value) :
  frames (push_content l vs).
Proof. apply (frames_modify_array l (fun mine => mine ++ vs)%list). Qed.

Lemma frames_splitText (buildToken : string -> M value) (c : string)
    (tlen : Z) (r : range) (message : string) (tokenStart : Z) :
  (forall s, frames (buildToken s)) ->
  frames (splitText buildToken c tlen r message tokenStart).
Proof.
  intros Fb. unfold splitText.
  repeat (first
    [ apply frames_ret
    | apply frames_new_token
    | apply Fb
    | apply frames_bind; [|intros ?]
    | match goal with |- frames (if ?b then _ else _) => destruct b end ]).
Qed.

Section LoopFrames.

Variable content_of : value -> M string.
Variable split : value -> Z -> M split_result.
Variable r : range.

Hypothesis content_of_frames : forall v, frames (content_of v).
Hypothesis split_frames : forall v start, frames (split v start).

Lemma frames_merge_next (buffer : list value) :
  forall nextTokenStartIndex m aft,
    frames (merge_next content_of split r buffer nextTokenStartIndex m aft).
Proof.
  induction buffer as [|nextToken buffer IH]; intros nts m aft;
    cbn [merge_next].
  - apply frames_ret.
  - destruct (num_ltb (Num nts) (snd r)); [|apply frames_ret].
    apply frames_bind; [apply split_frames | intros next].
    apply frames_bind; [apply frames_pop_content | intros _].
    apply frames_bind; [apply frames_get_array | intros theirs].
    apply frames_bind; [apply frames_push_content | intros _].
    apply frames_bind; [apply content_of_frames | intros s].
    apply IH.
Qed.

Lemma frames_walk (buffer : list value) :
  forall start, frames (walk content_of split r buffer start).
Proof.
  induction buffer as [|token buffer IH]; intros start; cbn [walk].
  - apply frames_ret.
  - destruct (truthy token); [|apply frames_ret].
    apply frames_bind; [apply content_of_frames | intros c].
    destruct (is_empty c || num_leb (Num (start + len c)) (fst r)).
    + apply frames_bind; [apply IH | intros rest; apply frames_ret].
    + apply frames_bind; [apply split_frames | intros result].
      apply frames_bind; [apply frames_merge_next | intros tail].
      apply frames_ret.
Qed.

End LoopFrames.

(** The assignment [token.content = [...]] after the conversion of a content
    that is no string. *)
Lemma frames_reassign (l : loc) (o : object) (c : M (list value)) :
  frames c ->
  forall h h' res,
    read h l = Some o ->
    (forall s, o_content o <> HStr s) ->
    bind c (fun converted =>
              bind (set_content l (HArr converted))
                   (fun _ => ret (mkSplit None l None))) h
    = Some (h', res) ->
    frame h h'.
Proof.
  intros Fc h h' res R N E. unfold bind in E.
  destruct (c h) as [[h1 converted]|] eqn:Ec; [|discriminate].
  pose proof (Fc _ _ _ Ec) as F1.
  destruct (F1 l o R) as (o1 & R1 & P1).
  unfold set_content in E. rewrite R1 in E. unfold ret in E. inversion E.
  eapply frame_trans; [exact F1|].
  apply frame_set_array; [exact R1|].
  destruct P1 as (_ & _ & _ & P1).
  destruct (o_content o); [destruct (N s); reflexivity | exact P1 ..].
Qed.

Lemma frames_splitToken (fuel : nat) :
  forall r message token tokenStart,
    frames (splitToken fuel r message token tokenStart).
Proof.
  induction fuel as [|fuel IH]; intros r message token tokenStart.
  - apply frames_fail.
  - destruct token as [s|l]; cbn [splitToken].
    + apply frames_bind; [apply frames_content_of | intros c].
      apply frames_splitText. intros x. apply frames_ret.
    + intros h h' res E. unfold bind at 1 in E. unfold get in E.
      destruct (read h l) as [o|] eqn:R; [|discriminate].
      destruct (o_content o) as [s|l'|vs] eqn:C.
      * revert E. apply frames_bind; [apply frames_content_of | intros c].
        apply frames_splitText. intros x.
        apply frames_bind; [apply frames_new_token | intros n].
        apply frames_ret.
      * eapply frames_reassign; [| exact R | | exact E].
        -- apply frames_walk; [apply frames_content_of | apply IH].
        -- intros s. rewrite C. discriminate.
      * eapply frames_reassign; [| exact R | | exact E].
        -- apply frames_walk; [apply frames_content_of | apply IH].
        -- intros s. rewrite C. discriminate.
Qed.

(** Of the objects that were in the store, a call of [convertMarked] changes
    nothing but the content of tokens whose content is no string: every
    object keeps its type, alias and length, and an object with string
    content is left as it was. *)
Lemma convertMarked_keeps_the_frame
    (fuel : nat) (tokens : list value) (r : range) (message : string)
    (tokenStart : Z) (h h' : heap) (out : list value) :
  convertMarked fuel tokens r message tokenStart h = Some (h', out) ->
  frame h h'
  /\ (forall l o s, read h l = Some o -> o_content o = HStr s ->
                    read h' l = Some o).
Proof.
  intros E.
  assert (F : frame h h').
  { revert E. apply frames_walk.
    - apply frames_content_of.
    - apply frames_splitToken. }
  split; [exact F|].
  intros l o s R C. destruct (F l o R) as (o' & R' & T & A & L & P).
  rewrite C in P. rewrite R'. f_equal.
  destruct o, o'; simpl in *; congruence.
Qed.


Lemma convertMarked_keeps_the_frame_example :
  frame example_heap example_heap_after
  /\ (forall l o s, read example_heap l = Some o -> o_content o = HStr s ->
                    read example_heap_after l = Some o).
Proof.
  apply (convertMarked_keeps_the_frame
           2%nat [VRef 0%nat] (Num 0, Num 1) "M" 0 example_heap
           example_heap_after [VRef 0%nat]).
  reflexivity.
Qed.

End StoreFacts.

(** ** The store model refines the tree model *)

Module RefinementFacts.

Import Refinement.

Ltac subsets :=
  unfold sep, within, without, union, fresh, bounded in *;
  repeat match goal with
         | |- forall _, _ => intro
         | H : _ /\ _ |- _ => destruct H
         | H : _ \/ _ |- _ => destruct H
         | |- _ /\ _ => split
         end;
  try solve [eauto | lia | exfalso; eauto | intuition (eauto; lia)].

Lemma stands_all_mono_with (h : Store.heap) (ts : list token) :
  Forall (fun t => forall v A A', within A A' -> stands h t v A ->
                                  stands h t v A') ts ->
  forall vs A A', within A A' -> stands_all h ts vs A -> stands_all h ts vs A'.
Proof.
  induction 1 as [|t ts Pt Pts IH]; intros [|v vs] A A' W S;
    try contradiction; [exact I|].
  destruct S as (B & C & S1 & S2 & Sep & WB & WC).
  exists B, C. repeat split; try assumption; subsets.
Qed.

Lemma stands_mono (h : Store.heap) (t : token) :
  forall v A A', within A A' -> stands h t v A -> stands h t v A'.
Proof.
  induction t as [x | type x al len | type t al len IH | type ts al len IH]
    using token_induction; intros v A A' W S.
  - exact S.
  - destruct S as (l & o & -> & R & T1 & T2 & T3 & Al & C).
    exists l, o. repeat split; auto.
  - destruct S as (l & o & -> & R & T1 & T2 & T3 & Al & l' & C & S').
    exists l, o. repeat split; auto. exists l'. split; [exact C|].
    eapply IH; [|exact S']. subsets.
  - destruct S as (l & o & -> & R & T1 & T2 & T3 & Al & vs & C & S').
    exists l, o. repeat split; auto. exists vs. split; [exact C|].
    eapply (stands_all_mono_with h ts IH); [|exact S']. subsets.
Qed.

Lemma stands_all_mono (h : Store.heap) (ts : list token)
    (vs : list Store.value) (A A' : own) :
  within A A' -> stands_all h ts vs A -> stands_all h ts vs A'.
Proof.
  apply stands_all_mono_with. apply Forall_forall. intros t _.
  apply stands_mono.
Qed.

Lemma stands_opt_mono (h : Store.heap) (t : option token)
    (v : option Store.value) (A A' : own) :
  within A A' -> stands_opt h t v A -> stands_opt h t v A'.
Proof.
  destruct t, v; simpl; auto. apply stands_mono.
Qed.

Lemma stands_all_frame_with (h h' : Store.heap) (ts : list token) :
  Forall (fun t => forall v A, same_on h h' A -> stands h t v A ->
                               stands h' t v A) ts ->
  forall vs A, same_on h h' A -> stands_all h ts vs A -> stands_all h' ts vs A.
Proof.
  induction 1 as [|t ts Pt Pts IH]; intros [|v vs] A E S;
    try contradiction; [exact I|].
  destruct S as (B & C & S1 & S2 & Sep & WB & WC).
  exists B, C. repeat split; try assumption.
  - apply Pt; [|exact S1]. intros l Bl. apply E. auto.
  - apply IH; [|exact S2]. intros l Cl. apply E. auto.
Qed.

Lemma stands_frame (h h' : Store.heap) (t : token) :
  forall v A, same_on h h' A -> stands h t v A -> stands h' t v A.
Proof.
  induction t as [x | type x al len | type t al len IH | type ts al len IH]
    using token_induction; intros v A E S.
  - exact S.
  - destruct S as (l & o & -> & R & T1 & T2 & T3 & Al & C).
    exists l, o. rewrite (E l Al). repeat split; auto.
  - destruct S as (l & o & -> & R & T1 & T2 & T3 & Al & l' & C & S').
    exists l, o. rewrite (E l Al). repeat split; auto.
    exists l'. split; [exact C|]. apply IH; [|exact S'].
    intros x [Ax _]. apply E. exact Ax.
  - destruct S as (l & o & -> & R & T1 & T2 & T3 & Al & vs & C & S').
    exists l, o. rewrite (E l Al). repeat split; auto.
    exists vs. split; [exact C|].
    apply (stands_all_frame_with h h' ts IH); [|exact S'].
    intros x [Ax _]. apply E. exact Ax.
Qed.

Lemma stands_all_frame (h h' : Store.heap) (ts : list token)
    (vs : list Store.value) (A : own) :
  same_on h h' A -> stands_all h ts vs A -> stands_all h' ts vs A.
Proof.
  apply stands_all_frame_with. apply Forall_forall. intros t _.
  apply stands_frame.
Qed.

Lemma stands_opt_frame (h h' : Store.heap) (t : option token)
    (v : option Store.value) (A : own) :
  same_on h h' A -> stands_opt h t v A -> stands_opt h' t v A.
Proof.
  destruct t, v; simpl; auto. apply stands_frame.
Qed.

(** Truthiness and text are those of the tree. *)
Lemma stands_truthy (h : Store.heap) (t : token) (v : Store.value) (A : own) :
  stands h t v A -> Store.truthy v = truthy t.
Proof.
  destruct t as [x|type c al len]; simpl.
  - intros ->. reflexivity.
  - intros (l & o & -> & _). reflexivity.
Qed.

Lemma stands_opt_truthy (h : Store.heap) (t : option token)
    (v : option Store.value) (A : own) :
  stands_opt h t v A -> Store.truthy_opt v = truthy_opt t.
Proof.
  destruct t, v; simpl; try contradiction; auto. apply stands_truthy.
Qed.

Lemma heights_cons (t : token) (ts : list token) :
  heights (t :: ts) = Nat.max (height t) (heights ts).
Proof. reflexivity. Qed.

Lemma contents_all (fuel : nat) (h : Store.heap) (ts : list token) :
  Forall (fun t => forall v A, stands h t v A -> (height t < fuel)%nat ->
            Store.getTokenContent fuel h v = Some (getTokenContent t)) ts ->
  forall vs A,
    stands_all h ts vs A -> (heights ts < fuel)%nat ->
    fold_right
      (fun v acc =>
         match Store.getTokenContent fuel h v, acc with
         | Some s, Some rest => Some (s ++ rest)%string
         | _, _ => None
         end)
      (Some EmptyString) vs
    = Some (join (map getTokenContent ts)).
Proof.
  induction 1 as [|t ts Pt Pts IH]; intros [|v vs] A S F;
    try contradiction; [reflexivity|].
  destruct S as (B & C & S1 & S2 & _).
  rewrite heights_cons in F. cbn [fold_right map join].
  rewrite (IH vs C S2) by lia. rewrite (Pt v B S1) by lia. reflexivity.
Qed.

Lemma stands_content (h : Store.heap) (fuel : nat) :
  forall t v A,
    stands h t v A -> (height t < fuel)%nat ->
    Store.getTokenContent fuel h v = Some (getTokenContent t).
Proof.
  induction fuel as [|fuel IHf]; intros t v A S F; [lia|].
  destruct t as [x|type c al len].
  - simpl in S. subst v. reflexivity.
  - destruct S as (l & o & -> & R & T1 & T2 & T3 & Al & C).
    cbn [Store.getTokenContent getTokenContent]. rewrite R, T1.
    destruct (String.eqb type ESLINT_MESSAGE); [reflexivity|].
    destruct c as [x|t'|ts].
    + rewrite C. reflexivity.
    + destruct C as (l' & C & S'). rewrite C.
      apply (IHf t' _ _ S'). simpl in F. lia.
    + destruct C as (vs & C & S'). rewrite C.
      apply (contents_all fuel h ts) with (A := without A l).
      * apply Forall_forall. intros t _ v B. apply IHf.
      * exact S'.
      * simpl in F. unfold heights. lia.
Qed.

Lemma grows_refl (h : Store.heap) : grows h h.
Proof. exists []. symmetry. apply app_nil_r. Qed.

Lemma grows_trans (h1 h2 h3 : Store.heap) :
  grows h1 h2 -> grows h2 h3 -> grows h1 h3.
Proof.
  intros [m1 ->] [m2 ->]. exists (m1 ++ m2)%list. rewrite app_assoc.
  reflexivity.
Qed.

Lemma grows_length (h h' : Store.heap) :
  grows h h' -> (List.length h <= List.length h')%nat.
Proof. intros [m ->]. rewrite length_app. lia. Qed.

Lemma grows_read (h h' : Store.heap) (l : Store.loc) :
  grows h h' -> (l < List.length h)%nat -> Store.read h' l = Store.read h l.
Proof.
  intros [m ->] L. unfold Store.read. apply nth_error_app1. exact L.
Qed.

Lemma grows_same_on (h h' : Store.heap) (A : own) :
  grows h h' -> bounded h A -> same_on h h' A.
Proof. intros G B l Al. apply grows_read; auto. Qed.

Lemma grows_changes (h h' : Store.heap) (A : own) :
  grows h h' -> changes h h' A.
Proof.
  intros G. split; [apply grows_length; exact G|].
  intros l L _. apply grows_read; assumption.
Qed.

Lemma changes_same_on (h h' : Store.heap) (A B : own) :
  changes h h' A -> bounded h B -> sep B A -> same_on h h' B.
Proof.
  intros [_ C] Bd S l Bl. apply C; [apply Bd; exact Bl | intros Al; eauto].
Qed.

Lemma changes_refl (h : Store.heap) (A : own) : changes h h A.
Proof. split; [lia | reflexivity]. Qed.

Lemma changes_trans (h1 h2 h3 : Store.heap) (A B C : own) :
  changes h1 h2 A -> changes h2 h3 B ->
  within A C ->
  (forall l, B l -> (l < List.length h1)%nat -> C l) ->
  changes h1 h3 C.
Proof.
  intros [L1 C1] [L2 C2] WA WB. split; [lia|].
  intros l L N. transitivity (Store.read h2 l).
  - apply C2; [lia | intros Bl; apply N; auto].
  - apply C1; [exact L | intros Al; apply N; auto].
Qed.

Lemma changes_within (h h' : Store.heap) (A B : own) :
  changes h h' A -> within A B -> changes h h' B.
Proof. intros [L C] W. split; [exact L|]. intros l Ll N. apply C; auto. Qed.

Lemma length_update (h : Store.heap) (l : Store.loc) (o : Store.object) :
  List.length (Store.update h l o) = List.length h.
Proof.
  revert l. induction h as [|x h IH]; intros [|l]; simpl; auto.
Qed.

Lemma read_bound (h : Store.heap) (l : Store.loc) (o : Store.object) :
  Store.read h l = Some o -> (l < List.length h)%nat.
Proof. unfold Store.read. intros R. apply nth_error_Some. congruence. Qed.

Lemma read_new (h : Store.heap) (o : Store.object) :
  Store.read (h ++ [o])%list (List.length h) = Some o.
Proof.
  unfold Store.read. rewrite nth_error_app2 by lia.
  rewrite Nat.sub_diag. reflexivity.
Qed.

Lemma builds_string :
  builds (fun newContent => Store.ret (Store.VStr newContent)) Str.
Proof.
  intros x h. exists h, (Store.VStr x). repeat split.
  apply grows_refl.
Qed.

Lemma builds_token (type : string) (al : alias) :
  builds
    (fun newContent =>
       Store.bind (Store.new_token type (Store.HStr newContent) al)
         (fun n => Store.ret (Store.VRef n)))
    (fun newContent => newToken type (CStr newContent) al).
Proof.
  intros x h. eexists _, _. split; [reflexivity|]. split.
  - eexists. reflexivity.
  - exists (List.length h), (Store.mkObject type (Store.HStr x) al 0).
    repeat split; try reflexivity; try apply read_new;
      unfold fresh; rewrite length_app; simpl; lia.
Qed.

(** An optional part of a token: [buildToken] is called when [b] holds. *)
Lemma builds_optional (buildS : string -> Store.M Store.value)
    (buildT : string -> token) (b : bool) (x : string) (h : Store.heap) :
  builds buildS buildT ->
  exists h' v,
    (if b then Store.bind (buildS x) (fun y => Store.ret (Some y))
     else Store.ret None) h = Some (h', v)
    /\ grows h h'
    /\ stands_opt h' (if b then Some (buildT x) else None) v (fresh h h').
Proof.
  intros Hb. destruct b.
  - destruct (Hb x h) as (h' & v & E & G & S).
    exists h', (Some v). unfold Store.bind. rewrite E. repeat split; assumption.
  - exists h, None. repeat split. apply grows_refl.
Qed.

Lemma fresh_bounded (h h' : Store.heap) : bounded h' (fresh h h').
Proof. intros l [_ L]. exact L. Qed.

Lemma splitText_refines (buildS : string -> Store.M Store.value)
    (buildT : string -> token) (content : string) (tlen : Z) (r : range)
    (message : string) (start : Z) (h : Store.heap) :
  builds buildS buildT ->
  exists h' res,
    Store.splitText buildS content tlen r message start h = Some (h', res)
    /\ grows h h'
    /\ exists Ab Am Aa,
        sep Ab Am /\ sep Ab Aa /\ sep Am Aa
        /\ within Ab (fresh h h') /\ within Am (fresh h h')
        /\ within Aa (fresh h h')
        /\ stands_opt h'
             (before (splitText buildT content tlen r message start))
             (Store.before res) Ab
        /\ stands h'
             (token_of (marked (splitText buildT content tlen r message start)))
             (Store.VRef (Store.marked res)) Am
        /\ stands_opt h'
             (after (splitText buildT content tlen r message start))
             (Store.after res) Aa.
Proof.
  intros Hb. unfold Store.splitText, splitText.
  set (x1 := slice content 0 (to_integer (num_sub (fst r) (Num start)))).
  set (b1 := num_ltb (Num start) (fst r)).
  destruct (builds_optional buildS buildT b1 x1 h Hb)
    as (h1 & vb & E1 & G1 & S1).
  unfold Store.bind at 1. rewrite E1.
  rewrite (stands_opt_truthy _ _ _ _ S1).
  set (mark := slice content _ _).
  destruct (Hb mark h1) as (h2 & vi & E2 & G2 & S2).
  unfold Store.bind at 1. rewrite E2.
  unfold Store.bind at 1. unfold Store.new_token at 1.
  set (omsg := Store.mkObject ESLINT_MESSAGE (Store.HStr message)
                 (AliasArr ["alert"]) 0).
  set (h3 := (h2 ++ [omsg])%list).
  unfold Store.bind at 1. unfold Store.new_token at 1.
  set (al := AliasArr _).
  set (omk := Store.mkObject ESLINT_MARKED
                (Store.HArr [vi; Store.VRef (List.length h2)]) al 0).
  set (h4 := (h3 ++ [omk])%list).
  set (x2 := slice_from content (to_integer (num_sub (snd r) (Num start)))).
  set (b2 := num_ltb (num_sub (snd r) (Num start)) (Num tlen)).
  destruct (builds_optional buildS buildT b2 x2 h4 Hb)
    as (h5 & va & E5 & G5 & S5).
  unfold Store.bind at 1. rewrite E5.
  exists h5, (Store.mkSplit vb (List.length h3) va).
  split; [reflexivity|].
  assert (G3 : grows h2 h3) by (eexists; reflexivity).
  assert (G4 : grows h3 h4) by (eexists; reflexivity).
  assert (L3 : List.length h3 = S (List.length h2))
    by (unfold h3; rewrite length_app; simpl; lia).
  assert (L4 : List.length h4 = S (List.length h3))
    by (unfold h4; rewrite length_app; simpl; lia).
  pose proof (grows_length _ _ G1) as L1.
  pose proof (grows_length _ _ G2) as L2.
  pose proof (grows_length _ _ G5) as L5.
  split.
  { eapply grows_trans; [exact G1|]. eapply grows_trans; [exact G2|].
    eapply grows_trans; [exact G3|]. eapply grows_trans; eassumption. }
  exists (fresh h h1), (fresh h1 h4), (fresh h4 h5).
  cbn [before marked after Store.before Store.marked Store.after token_of
       at_type at_content at_alias at_length].
  repeat match goal with |- _ /\ _ => split end.
  - subsets.
  - subsets.
  - subsets.
  - subsets.
  - subsets.
  - subsets.
  - apply (stands_opt_frame h1); [|exact S1].
    apply grows_same_on; [|apply fresh_bounded].
    eapply grows_trans; [exact G2|]. eapply grows_trans; [exact G3|].
    eapply grows_trans; eassumption.
  - exists (List.length h3), omk.
    repeat match goal with |- _ /\ _ => split end; try reflexivity.
    + rewrite (grows_read h4 h5) by (assumption || lia).
      apply read_new.
    + unfold fresh. lia.
    + exists [vi; Store.VRef (List.length h2)]. split; [reflexivity|].
      exists (fresh h1 h2), (fun x => x = List.length h2).
      repeat match goal with |- _ /\ _ => split end.
      * apply (stands_frame h2); [|exact S2].
        apply grows_same_on; [|apply fresh_bounded].
        eapply grows_trans; [exact G3|]. eapply grows_trans; eassumption.
      * exists (fun x => x = List.length h2), nothing.
        repeat match goal with |- _ /\ _ => split end.
        -- exists (List.length h2), omsg.
           repeat match goal with |- _ /\ _ => split end; try reflexivity.
           rewrite (grows_read h3 h5).
           ++ apply read_new.
           ++ eapply grows_trans; eassumption.
           ++ lia.
        -- exact I.
        -- unfold sep, nothing. auto.
        -- unfold within. auto.
        -- unfold within, nothing. intros l [].
      * subsets.
      * subsets.
      * subsets.
  - exact S5.
Qed.

Lemma height_token_of (m : array_token) :
  height (token_of m) = S (heights (at_content m)).
Proof. reflexivity. Qed.

Lemma heights_app (a b : list token) :
  heights (a ++ b) = Nat.max (heights a) (heights b).
Proof.
  induction a as [|t a IH]; [reflexivity|].
  cbn [app]. rewrite !heights_cons, IH. lia.
Qed.

Lemma heights_removelast (a : list token) :
  (heights (removelast a) <= heights a)%nat.
Proof.
  induction a as [|t a IH]; [simpl; lia|].
  destruct a as [|u a]; [simpl; lia|].
  change (removelast (t :: u :: a)) with (t :: removelast (u :: a)).
  rewrite !(heights_cons t). lia.
Qed.

Lemma heights_yield_if (o : option token) :
  (heights (yield_if o) <= height_opt o)%nat.
Proof.
  destruct o as [t|]; simpl; [|lia].
  destruct (truthy t); simpl; lia.
Qed.

(** The heights of the parts that [splitText] builds. *)
Lemma splitText_heights (buildT : string -> token) (content : string)
    (tlen : Z) (r : range) (message : string) (start : Z) (n : nat) :
  (forall x, height (buildT x) <= n)%nat ->
  (n <= 1)%nat ->
  (height_opt (before (splitText buildT content tlen r message start)) <= 1
   /\ height (token_of (marked (splitText buildT content tlen r message start)))
      <= 2
   /\ height_opt (after (splitText buildT content tlen r message start)) <= 1)%nat.
Proof.
  intros Hb Hn. unfold splitText. cbn [before marked after].
  repeat split.
  - destruct (num_ltb _ _); simpl; [|lia]. specialize (Hb (slice content 0
      (to_integer (num_sub (fst r) (Num start))))). lia.
  - rewrite height_token_of. cbn [at_content]. rewrite !heights_cons.
    match goal with |- context [height (buildT ?x)] => specialize (Hb x) end.
    change (height (messageToken message)) with 1%nat.
    change (heights []) with 0%nat. lia.
  - destruct (num_ltb _ _); simpl; [|lia]. specialize (Hb (slice_from content
      (to_integer (num_sub (snd r) (Num start))))). lia.
Qed.

Section Heights.

Variable r : range.
Variable message : string.

Lemma merge_next_heights (ts : list token) :
  Forall (split_heights r message) ts ->
  forall nts m aft n,
    (heights ts + 2 <= n)%nat ->
    (height (token_of m) <= n)%nat ->
    (height_opt aft <= n)%nat ->
    let '(m', aft', rest) :=
      merge_next (splitToken r message) r ts nts m aft in
    (height (token_of m') <= n /\ height_opt aft' <= n
     /\ heights rest <= n)%nat.
Proof.
  induction 1 as [|t ts Pt Pts IH]; intros nts m aft n Hn Hm Ha.
  - cbn [merge_next]. repeat split; try assumption. simpl. lia.
  - rewrite heights_cons in Hn. cbn [merge_next].
    destruct (num_ltb (Num nts) (snd r)).
    + destruct (Pt nts) as (_ & H2 & H3).
      apply IH.
      * lia.
      * rewrite height_token_of in *. cbn [at_content].
        rewrite heights_app. pose proof (heights_removelast (at_content m)).
        lia.
      * destruct (truthy_opt (after (splitToken r message t nts))); lia.
    + repeat split; try assumption. rewrite heights_cons. lia.
Qed.

Lemma walk_heights (ts : list token) :
  Forall (split_heights r message) ts ->
  forall start,
    (heights (walk (splitToken r message) r ts start) <= heights ts + 2)%nat.
Proof.
  induction 1 as [|t ts Pt Pts IH]; intros start.
  - simpl. lia.
  - cbn [walk]. rewrite heights_cons.
    destruct (truthy t); [|simpl; lia].
    destruct (is_empty (getTokenContent t) || _).
    + rewrite heights_cons. specialize (IH (start + len (getTokenContent t))).
      lia.
    + destruct (Pt start) as (H1 & H2 & H3).
      pose proof (merge_next_heights ts Pts (start + len (getTokenContent t))
                    (marked (splitToken r message t start))
                    (after (splitToken r message t start))
                    (Nat.max (height t) (heights ts) + 2)) as M.
      destruct (merge_next _ _ ts _ _ _) as [[m' aft'] rest].
      destruct M as (M1 & M2 & M3); try lia.
      rewrite !heights_app, heights_cons.
      pose proof (heights_yield_if (before (splitToken r message t start))).
      pose proof (heights_yield_if aft').
      simpl (heights []). lia.
Qed.

Lemma splitToken_heights (t : token) : split_heights r message t.
Proof.
  induction t as [x | type x al len | type t al len IH | type ts al len IH]
    using token_induction; intros start.
  - cbn [splitToken].
    destruct (splitText_heights Str (getTokenContent (Str x))
                (token_length (Str x)) r message start 0) as (H1 & H2 & H3);
      try (simpl; lia). simpl (height (Str x)). lia.
  - cbn [splitToken].
    destruct (splitText_heights
                (fun newContent => newToken type (CStr newContent) al)
                (getTokenContent (Tok type (CStr x) al len))
                (token_length (Tok type (CStr x) al len)) r message start 1)
      as (H1 & H2 & H3); try (simpl; lia).
    simpl (height (Tok _ _ _ _)). lia.
  - cbn [splitToken before marked after height_opt].
    rewrite height_token_of. cbn [at_content].
    pose proof (walk_heights [t] (Forall_cons _ IH (Forall_nil _)) start) as W.
    rewrite heights_cons in W. simpl (heights []) in W.
    simpl (height (Tok _ _ _ _)). lia.
  - cbn [splitToken before marked after height_opt].
    rewrite height_token_of. cbn [at_content].
    pose proof (walk_heights ts IH start) as W.
    simpl (height (Tok _ _ _ _)). fold (heights ts). lia.
Qed.

Lemma token_after_split_height (t : token) (start : Z) :
  (height (token_after_split t (splitToken r message t start))
   <= height t + 2)%nat.
Proof.
  destruct (splitToken_heights t start) as (_ & H & _).
  destruct t as [x|type [x|t'|ts] al len]; cbn [token_after_split];
    try lia; exact H.
Qed.

End Heights.

Lemma stands_all_cons (h : Store.heap) (t : token) (ts : list token)
    (v : Store.value) (vs : list Store.value) (B C : own) :
  stands h t v B -> stands_all h ts vs C -> sep B C ->
  stands_all h (t :: ts) (v :: vs) (union B C).
Proof.
  intros S1 S2 Sep. exists B, C. repeat split; try assumption;
    unfold within, union; auto.
Qed.

Lemma stands_all_app (h : Store.heap) (X Y : list token) :
  forall (xs ys : list Store.value) (P Q : own),
    stands_all h X xs P -> stands_all h Y ys Q -> sep P Q ->
    stands_all h (X ++ Y) (xs ++ ys) (union P Q).
Proof.
  induction X as [|t X IH]; intros [|v xs] ys P Q SX SY Sep;
    try contradiction.
  - cbn [app]. eapply stands_all_mono; [|exact SY]. unfold within, union. auto.
  - destruct SX as (B & C & S1 & S2 & SepBC & WB & WC).
    cbn [app]. exists B, (union C Q).
    split; [exact S1|]. split.
    + apply IH; try assumption. intros l Cl Ql. apply (Sep l); auto.
    + repeat split.
      * intros l Bl [Cl|Ql]; [apply (SepBC l); auto | apply (Sep l); auto].
      * intros l Bl. left. auto.
      * intros l [Cl|Ql]; [left; auto | right; auto].
Qed.

Lemma stands_all_nil (h : Store.heap) (A : own) : stands_all h [] [] A.
Proof. exact I. Qed.

Lemma stands_all_one (h : Store.heap) (t : token) (v : Store.value) (A : own) :
  stands h t v A -> stands_all h [t] [v] A.
Proof.
  intros S. exists A, nothing. repeat split; try assumption.
  - intros l _ [].
  - intros l Al. exact Al.
  - intros l [].
Qed.

Lemma stands_all_removelast (h : Store.heap) (ts : list token) :
  forall vs A,
    stands_all h ts vs A ->
    stands_all h (removelast ts) (removelast vs) A.
Proof.
  induction ts as [|t ts IH]; intros [|v vs] A S; try contradiction;
    [exact I|].
  destruct S as (B & C & S1 & S2 & Sep & WB & WC).
  destruct ts as [|u ts], vs as [|w vs]; try contradiction; [exact I|].
  change (removelast (t :: u :: ts)) with (t :: removelast (u :: ts)).
  change (removelast (v :: w :: vs)) with (v :: removelast (w :: vs)).
  exists B, C. repeat split; try assumption. apply IH. exact S2.
Qed.

Lemma stands_all_yield_if (h : Store.heap) (t : option token)
    (v : option Store.value) (A : own) :
  stands_opt h t v A -> stands_all h (yield_if t) (Store.yield_if v) A.
Proof.
  destruct t as [t|], v as [v|]; simpl; try contradiction; [|auto].
  intros S. rewrite (stands_truthy _ _ _ _ S).
  destruct (truthy t); [apply stands_all_one; exact S | exact I].
Qed.

Lemma content_of_run (h : Store.heap) (fuel : nat) (t : token)
    (v : Store.value) (A : own) :
  stands h t v A -> (height t < fuel)%nat ->
  Store.content_of fuel v h = Some (h, getTokenContent t).
Proof.
  intros S F. unfold Store.content_of.
  rewrite (stands_content h fuel t v A S F). reflexivity.
Qed.

(** What a token with an array looks like in the store. *)
Lemma stands_array (h : Store.heap) (m : array_token) (l : Store.loc)
    (A : own) :
  stands h (token_of m) (Store.VRef l) A ->
  exists o vs,
    Store.read h l = Some o
    /\ Store.o_type o = at_type m /\ Store.o_alias o = at_alias m
    /\ Store.o_length o = at_length m
    /\ Store.o_content o = Store.HArr vs
    /\ A l
    /\ stands_all h (at_content m) vs (without A l).
Proof.
  intros (l' & o & E & R & T1 & T2 & T3 & Al & vs & C & S).
  inversion E. subst l'. exists o, vs. repeat split; assumption.
Qed.

Lemma stands_array_intro (h : Store.heap) (m : array_token) (l : Store.loc)
    (o : Store.object) (vs : list Store.value) (A : own) :
  Store.read h l = Some o ->
  Store.o_type o = at_type m -> Store.o_alias o = at_alias m ->
  Store.o_length o = at_length m ->
  Store.o_content o = Store.HArr vs ->
  A l ->
  stands_all h (at_content m) vs (without A l) ->
  stands h (token_of m) (Store.VRef l) A.
Proof.
  intros R T1 T2 T3 C Al S. exists l, o.
  repeat match goal with |- _ /\ _ => split end; try assumption;
    try reflexivity.
  exists vs. split; assumption.
Qed.

(** Assigning an array to the content of the token at [l]. *)
Lemma set_array_run (h : Store.heap) (l : Store.loc) (o : Store.object)
    (vs : list Store.value) :
  Store.read h l = Some o ->
  Store.set_content l (Store.HArr vs) h
  = Some (Store.update h l
            (Store.mkObject (Store.o_type o) (Store.HArr vs)
               (Store.o_alias o) (Store.o_length o)), tt).
Proof. intros R. unfold Store.set_content. rewrite R. reflexivity. Qed.

Lemma update_changes (h : Store.heap) (l : Store.loc) (o : Store.object)
    (A : own) :
  A l -> changes h (Store.update h l o) A.
Proof.
  intros Al. split; [rewrite length_update; lia|].
  intros x Lx N. apply StoreFacts.read_update_other. intros <-. auto.
Qed.

Lemma update_same_on (h : Store.heap) (l : Store.loc) (o : Store.object)
    (A : own) :
  ~ A l -> same_on h (Store.update h l o) A.
Proof.
  intros N x Ax. apply StoreFacts.read_update_other. intros <-. auto.
Qed.

Lemma get_array_run (h : Store.heap) (l : Store.loc) (o : Store.object)
    (vs : list Store.value) :
  Store.read h l = Some o -> Store.o_content o = Store.HArr vs ->
  Store.get_array l h = Some (h, vs).
Proof.
  intros R C. unfold Store.get_array, Store.bind, Store.get.
  rewrite R, C. reflexivity.
Qed.

Ltac inst_at v :=
  repeat match goal with
         | H : forall x : ?X, @?P x |- _ =>
             lazymatch X with
             | Store.loc => idtac
             | nat => idtac
             end;
             let T := eval cbv beta in (P v) in
             lazymatch goal with
             | _ : T |- _ => fail
             | _ => assert T by apply H
             end
         end.

Ltac inst_all :=
  repeat match goal with
         | v : ?X |- _ =>
             lazymatch X with
             | Store.loc => idtac
             | nat => idtac
             end;
             progress (inst_at v)
         end.

Ltac sets :=
  unfold sep, within, without, union, fresh, bounded, nothing in *;
  intros;
  repeat match goal with
         | H : _ /\ _ |- _ => destruct H
         end;
  inst_all;
  repeat match goal with
         | H : forall x : ?X, _ |- _ =>
             lazymatch X with
             | Store.loc => clear H
             | nat => clear H
             end
         end;
  solve [intuition (subst; try lia; eauto)].

Section LoopsRefine.

Variable fuel : nat.
Variable splitS : Store.value -> Z -> Store.M Store.split_result.
Variable r : range.
Variable message : string.

Lemma merge_next_refines (ts : list token) :
  Forall (split_spec splitS r message) ts ->
  (heights ts + 2 < fuel)%nat ->
  forall h vs A m mT Am aft aftT Aa nts,
    stands_all h ts vs A ->
    stands h (token_of mT) (Store.VRef m) Am ->
    stands_opt h aftT aft Aa ->
    sep A Am -> sep A Aa -> sep Am Aa ->
    bounded h A -> bounded h Am -> bounded h Aa ->
    exists h' aft' rest,
      Store.merge_next (Store.content_of fuel) splitS r vs nts m aft h
      = Some (h', (aft', rest))
      /\ changes h h' (union A Am)
      /\ exists Am' Aa' Ar,
          sep Am' Aa' /\ sep Am' Ar /\ sep Aa' Ar
          /\ within Am' (union (union A (union Am Aa)) (fresh h h'))
          /\ within Aa' (union (union A (union Am Aa)) (fresh h h'))
          /\ within Ar (union (union A (union Am Aa)) (fresh h h'))
          /\ stands h'
               (token_of
                  (fst (fst (merge_next (splitToken r message) r ts nts
                               mT aftT))))
               (Store.VRef m) Am'
          /\ stands_opt h'
               (snd (fst (merge_next (splitToken r message) r ts nts
                            mT aftT)))
               aft' Aa'
          /\ stands_all h'
               (snd (merge_next (splitToken r message) r ts nts mT aftT))
               rest Ar.
Proof.
  induction 1 as [|t ts Pt Pts IH];
    intros F h [|v vs] A m mT Am aft aftT Aa nts SA Sm Sa
           SepAm SepAa SepMa BA Bm Ba; try contradiction.
  - exists h, aft, []. split; [reflexivity|]. split; [apply changes_refl|].
    exists Am, Aa, nothing. cbn [merge_next fst snd].
    repeat match goal with |- _ /\ _ => split end;
      try assumption; try exact I; sets.
  - rewrite heights_cons in F.
    destruct SA as (B & C & S1 & S2 & SepBC & WB & WC).
    cbn [Store.merge_next merge_next].
    destruct (num_ltb (Num nts) (snd r)).
    2:{ exists h, aft, (v :: vs). split; [reflexivity|].
        split; [apply changes_refl|].
        exists Am, Aa, A. cbn [fst snd].
        repeat match goal with |- _ /\ _ => split end;
          try assumption; try sets.
        exists B, C. repeat split; assumption. }
    (* the split of the next token *)
    destruct (Pt h v B nts S1) as
      (h1 & res & E1 & Ch1 & Ab1 & Am1 & Aa1 & Sep1 & Sep2 & Sep3
       & W1 & W2 & W3 & Sb1 & Sm1 & Sa1 & Sv1); [sets|].
    set (T := splitToken r message t nts) in *.
    unfold Store.bind at 1. rewrite E1.
    assert (L1 : (List.length h <= List.length h1)%nat) by apply Ch1.
    (* the token [m] after the split *)
    assert (Sm_1 : stands h1 (token_of mT) (Store.VRef m) Am).
    { apply (stands_frame h); [|exact Sm].
      apply (changes_same_on h h1 B); [exact Ch1 | exact Bm | sets]. }
    destruct (stands_array _ _ _ _ Sm_1)
      as (o & mvs & Rm & T1 & T2 & T3 & Cm & Amm & SAm).
    assert (Nm1 : ~ Am1 m) by sets.
    assert (NmA1 : ~ Aa1 m) by sets.
    assert (NmB : ~ union B (fresh h h1) m) by sets.
    (* pop *)
    unfold Store.bind at 1. unfold Store.pop_content.
    unfold Store.bind at 1. rewrite (get_array_run h1 m o mvs Rm Cm).
    rewrite (set_array_run h1 m o _ Rm).
    set (o2 := Store.mkObject (Store.o_type o)
                 (Store.HArr (removelast mvs)) (Store.o_alias o)
                 (Store.o_length o)).
    set (h2 := Store.update h1 m o2).
    assert (Rm2 : Store.read h2 m = Some o2)
      by (apply (StoreFacts.read_update_same h1 m o); exact Rm).
    (* the array of the token returned *)
    assert (Sm1_2 : stands h2 (token_of (marked T))
                      (Store.VRef (Store.marked res)) Am1).
    { apply (stands_frame h1); [|exact Sm1]. apply update_same_on. exact Nm1. }
    destruct (stands_array _ _ _ _ Sm1_2)
      as (ok & theirs & Rk & _ & _ & _ & Ck & Akk & SAk).
    unfold Store.bind at 1. rewrite (get_array_run h2 _ ok theirs Rk Ck).
    (* push *)
    unfold Store.bind at 1. unfold Store.push_content.
    unfold Store.bind at 1.
    rewrite (get_array_run h2 m o2 (removelast mvs) Rm2 eq_refl).
    rewrite (set_array_run h2 m o2 _ Rm2).
    set (o3 := Store.mkObject (Store.o_type o2)
                 (Store.HArr (removelast mvs ++ theirs)) (Store.o_alias o2)
                 (Store.o_length o2)).
    set (h3 := Store.update h2 m o3).
    assert (Rm3 : Store.read h3 m = Some o3)
      by (apply (StoreFacts.read_update_same h2 m o2); exact Rm2).
    assert (L3 : List.length h3 = List.length h1)
      by (unfold h3, h2; rewrite !length_update; reflexivity).
    assert (Same13 : forall X : own, ~ X m -> same_on h1 h3 X).
    { intros X N l Xl. unfold h3, h2.
      rewrite !StoreFacts.read_update_other; [reflexivity | |]; intros <-;
        auto. }
    (* the text of the next token *)
    unfold Store.bind at 1.
    rewrite (content_of_run h3 fuel (token_after_split t T) v
               (union B (fresh h h1))).
    2:{ apply (stands_frame h1); [|exact Sv1]. apply Same13. exact NmB. }
    2:{ pose proof (token_after_split_height r message t nts). fold T in H.
        lia. }
    (* the rest of the loop *)
    set (mT' := mkArrayToken (at_type mT)
                  (removelast (at_content mT) ++ at_content (marked T))
                  (at_alias mT) (at_length mT)).
    set (aftT' := if truthy_opt (after T) then after T else aftT).
    rewrite (stands_opt_truthy _ _ _ _ Sa1).
    set (aft' := if truthy_opt (after T) then Store.after res else aft).
    set (Aa' := if truthy_opt (after T) then Aa1 else Aa).
    assert (Same03 : forall X : own, bounded h X -> sep X B -> ~ X m ->
                                     same_on h h3 X).
    { intros X BX SX N l Xl. rewrite (Same13 X N l Xl).
      apply (changes_same_on h h1 B X Ch1 BX SX l Xl). }
    destruct (IH ltac:(lia) h3 vs C m mT' (union Am Am1) aft' aftT' Aa'
                (nts + len (getTokenContent (token_after_split t T))))
      as (h' & aft'' & rest & E & Ch & Am'' & Aa'' & Ar & Q1 & Q2 & Q3
          & V1 & V2 & V3 & Z1 & Z2 & Z3).
    + apply (stands_all_frame h); [|exact S2]. apply Same03; sets.
    + apply (stands_array_intro h3 mT' m o3
               (removelast mvs ++ theirs)); try assumption; try reflexivity.
      * left. exact Amm.
      * unfold mT'. cbn [at_content].
        eapply stands_all_mono;
          [|apply (stands_all_app h3 _ _ _ _ (without Am m)
                     (without Am1 (Store.marked res)))].
        -- sets.
        -- apply stands_all_removelast.
           apply (stands_all_frame h1); [|exact SAm]. apply Same13. sets.
        -- apply (stands_all_frame h2); [|exact SAk].
           unfold h3. apply update_same_on. sets.
        -- sets.
    + unfold aftT', aft', Aa'. destruct (truthy_opt (after T)).
      * apply (stands_opt_frame h1); [|exact Sa1]. apply Same13. exact NmA1.
      * apply (stands_opt_frame h); [|exact Sa]. apply Same03; sets.
    + sets.
    + unfold Aa'. destruct (truthy_opt (after T)); sets.
    + unfold Aa'. destruct (truthy_opt (after T)); sets.
    + unfold bounded. intros l Hl. rewrite L3. sets.
    + unfold bounded. intros l Hl. rewrite L3. sets.
    + unfold bounded, Aa'. intros l Hl. rewrite L3.
      destruct (truthy_opt (after T)); sets.
    + exists h', aft'', rest. split; [exact E|].
      assert (L' : (List.length h3 <= List.length h')%nat) by apply Ch.
      split.
      { split; [lia|]. intros l Ll N.
        destruct Ch as [_ Ch]. rewrite Ch; [| lia | sets].
        rewrite (Same13 (fun x => x <> m)); [| auto | sets].
        apply Ch1; [exact Ll | sets]. }
      exists Am'', Aa'', Ar.
      repeat match goal with |- _ /\ _ => split end;
        try assumption.
      * unfold Aa' in *. destruct (truthy_opt (after T)); sets.
      * unfold Aa' in *. destruct (truthy_opt (after T)); sets.
      * unfold Aa' in *. destruct (truthy_opt (after T)); sets.
Qed.

Lemma walk_refines (ts : list token) :
  Forall (split_spec splitS r message) ts ->
  (heights ts + 2 < fuel)%nat ->
  forall h vs A start,
    stands_all h ts vs A -> bounded h A ->
    exists h' out,
      Store.walk (Store.content_of fuel) splitS r vs start h = Some (h', out)
      /\ changes h h' A
      /\ exists A',
          within A' (union A (fresh h h'))
          /\ stands_all h' (walk (splitToken r message) r ts start) out A'.
Proof.
  induction 1 as [|t ts Pt Pts IH];
    intros F h [|v vs] A start SA BA; try contradiction.
  - exists h, []. split; [reflexivity|]. split; [apply changes_refl|].
    exists nothing. split; [sets | exact I].
  - rewrite heights_cons in F.
    destruct SA as (B & C & S1 & S2 & SepBC & WB & WC).
    cbn [Store.walk walk].
    rewrite (stands_truthy _ _ _ _ S1).
    destruct (truthy t).
    2:{ exists h, []. split; [reflexivity|]. split; [apply changes_refl|].
        exists nothing. split; [sets | exact I]. }
    unfold Store.bind at 1.
    rewrite (content_of_run h fuel t v B S1) by lia.
    destruct (is_empty (getTokenContent t)
              || num_leb (Num (start + len (getTokenContent t))) (fst r)).
    + (* the token passes *)
      destruct (IH ltac:(lia) h vs C (start + len (getTokenContent t)) S2)
        as (h' & rest & E & Ch & A' & W' & SR); [sets|].
      unfold Store.bind at 1. rewrite E.
      assert (L' : (List.length h <= List.length h')%nat) by apply Ch.
      exists h', (v :: rest). split; [reflexivity|].
      split; [apply (changes_within h h' C); [exact Ch | exact WC]|].
      exists (union B A'). split; [sets|].
      apply stands_all_cons.
      * apply (stands_frame h); [|exact S1].
        apply (changes_same_on h h' C); [exact Ch | sets | exact SepBC].
      * exact SR.
      * sets.
    + (* the token is split *)
      destruct (Pt h v B start S1) as
        (h1 & res & E1 & Ch1 & Ab1 & Am1 & Aa1 & Sep1 & Sep2 & Sep3
         & W1 & W2 & W3 & Sb1 & Sm1 & Sa1 & Sv1); [sets|].
      set (T := splitToken r message t start) in *.
      unfold Store.bind at 1. rewrite E1.
      assert (L1 : (List.length h <= List.length h1)%nat) by apply Ch1.
      destruct (merge_next_refines ts Pts ltac:(lia) h1 vs C
                  (Store.marked res) (marked T) Am1 (Store.after res)
                  (after T) Aa1 (start + len (getTokenContent t)))
        as (h' & aft' & rest & E & Ch & Am' & Aa' & Ar & Q1 & Q2 & Q3
            & V1 & V2 & V3 & Z1 & Z2 & Z3);
        try assumption.
      * apply (stands_all_frame h); [|exact S2].
        apply (changes_same_on h h1 B); [exact Ch1 | sets | sets].
      * sets.
      * sets.
      * unfold bounded. intros l Hl. sets.
      * unfold bounded. intros l Hl. sets.
      * unfold bounded. intros l Hl. sets.
      * unfold Store.bind at 1. rewrite E. unfold Store.ret.
        cbn [fst snd].
        assert (L' : (List.length h1 <= List.length h')%nat) by apply Ch.
        destruct (merge_next (splitToken r message) r ts
                    (start + len (getTokenContent t)) (marked T) (after T))
          as [[m'' a''] rest''].
        cbn [fst snd] in Z1, Z2, Z3.
        eexists h', _. split; [reflexivity|].
        split.
        { split; [lia|]. intros l Ll N.
          destruct Ch as [_ Ch]. rewrite Ch; [| lia | sets].
          apply Ch1; [exact Ll | sets]. }
        exists (union Ab1 (union Am' (union Aa' Ar))).
        split; [sets|].
        apply stands_all_app; [| |sets].
        -- apply stands_all_yield_if.
           apply (stands_opt_frame h1); [|exact Sb1].
           apply (changes_same_on h1 h' (union C Am1)); [exact Ch| |].
           ++ unfold bounded. intros l Hl. sets.
           ++ sets.
        -- apply (stands_all_app h' [_] _ [_] _);
             [apply stands_all_one; exact Z1| |sets].
           apply stands_all_app; [| exact Z3 | sets].
           apply stands_all_yield_if. exact Z2.
Qed.

End LoopsRefine.

Section Split.

Variable r : range.
Variable message : string.

Lemma height_le_heights (t : token) (ts : list token) :
  In t ts -> (height t <= heights ts)%nat.
Proof.
  induction ts as [|x ts IH]; [intros []|intros [->|I]].
  - rewrite heights_cons. lia.
  - rewrite heights_cons. specialize (IH I). lia.
Qed.

(** What [splitToken] does to a token with nested content, given that the
    walk over the content refines the tree model. *)
Lemma nested_refines (fuel : nat) (type : string) (al : alias) (len : Z)
    (c : tcontent) (ts : list token) (h : Store.heap) (l : Store.loc)
    (o : Store.object) (vs : list Store.value) (A : own) (start : Z) :
  Forall (split_spec (Store.splitToken fuel r message) r message) ts ->
  (heights ts + 2 < S fuel)%nat ->
  Store.read h l = Some o ->
  Store.o_type o = type -> Store.o_alias o = al -> Store.o_length o = len ->
  A l -> bounded h A ->
  stands_all h ts vs (without A l) ->
  exists h' res,
    Store.bind
      (Store.walk (Store.content_of (S fuel))
         (Store.splitToken fuel r message) r vs start)
      (fun converted =>
         Store.bind (Store.set_content l (Store.HArr converted))
           (fun _ => Store.ret (Store.mkSplit None l None))) h
    = Some (h', res)
    /\ changes h h' A
    /\ Store.before res = None /\ Store.after res = None
    /\ Store.marked res = l
    /\ stands h'
         (token_of
            (mkArrayToken type (walk (splitToken r message) r ts start)
               al len))
         (Store.VRef l) (union A (fresh h h')).
Proof.
  intros P F R T1 T2 T3 Al BA SA.
  destruct (walk_refines (S fuel) (Store.splitToken fuel r message) r message
              ts P F h vs (without A l) start SA)
    as (h1 & out & E & Ch & A' & W' & SO); [sets|].
  assert (L1 : (List.length h <= List.length h1)%nat) by apply Ch.
  assert (R1 : Store.read h1 l = Some o).
  { destruct Ch as [_ Ch]. rewrite Ch; [exact R | sets | sets]. }
  unfold Store.bind at 1. rewrite E.
  unfold Store.bind at 1. rewrite (set_array_run h1 l o out R1).
  unfold Store.ret. eexists _, _. split; [reflexivity|].
  cbn [Store.before Store.after Store.marked].
  rewrite T1, T2, T3.
  set (o' := Store.mkObject type (Store.HArr out) al len).
  assert (L2 : List.length (Store.update h1 l o') = List.length h1)
    by apply length_update.
  split.
  { split; [lia|]. intros x Lx N.
    rewrite StoreFacts.read_update_other; [|intros <-; auto].
    apply Ch; [exact Lx | sets]. }
  split; [reflexivity|]. split; [reflexivity|]. split; [reflexivity|].
  apply (stands_array_intro _ _ l o' out); try reflexivity.
  - apply (StoreFacts.read_update_same h1 l o). exact R1.
  - left. exact Al.
  - cbn [at_content].
    apply (stands_all_mono _ _ _ A').
    + unfold fresh in *. rewrite L2. sets.
    + apply (stands_all_frame h1); [|exact SO].
      apply update_same_on. sets.
Qed.

(** [splitToken] in the store refines [splitToken] on trees. *)
Lemma split_refines (t : token) :
  forall fuel, (height t + 2 < fuel)%nat ->
               split_spec (Store.splitToken fuel r message) r message t.
Proof.
  induction t as [x | type x al len | type t al len IH | type ts al len IH]
    using token_induction; intros [|fuel] F; try lia;
    intros h v A start S B.
  - cbn [stands] in S. subst v.
    cbn [Store.splitToken splitToken].
    unfold Store.bind at 1. unfold Store.content_of.
    cbn [Store.getTokenContent].
    destruct (splitText_refines
                (fun newContent => Store.ret (Store.VStr newContent)) Str
                (getTokenContent (Str x)) (token_length (Str x)) r message
                start h builds_string)
      as (h' & res & E & G & Ab & Am & Aa & Q1 & Q2 & Q3 & W1 & W2 & W3
          & Z1 & Z2 & Z3).
    cbn [getTokenContent token_length] in E.
    exists h', res. split; [exact E|].
    split; [apply grows_changes; exact G|].
    exists Ab, Am, Aa.
    repeat match goal with |- _ /\ _ => split end;
      try assumption; try sets.
    reflexivity.
  - pose proof S as S0.
    cbn [stands] in S.
    destruct S as (l & o & -> & R & T1 & T2 & T3 & Al & C).
    cbn [Store.splitToken splitToken].
    unfold Store.bind at 1. unfold Store.get. rewrite R. rewrite C.
    unfold Store.bind at 1.
    rewrite (content_of_run h (S fuel) _ _ A S0)
      by (simpl (height _) in *; lia).
    rewrite T1, T2, T3.
    destruct (splitText_refines
                (fun newContent =>
                   Store.bind
                     (Store.new_token type (Store.HStr newContent) al)
                     (fun n => Store.ret (Store.VRef n)))
                (fun newContent => newToken type (CStr newContent) al)
                (getTokenContent (Tok type (CStr x) al len))
                (token_length (Tok type (CStr x) al len)) r message
                start h (builds_token type al))
      as (h' & res & E & G & Ab & Am & Aa & Q1 & Q2 & Q3 & W1 & W2 & W3
          & Z1 & Z2 & Z3).
    cbn [token_length] in E |- *.
    exists h', res. split; [exact E|].
    split; [apply grows_changes; exact G|].
    exists Ab, Am, Aa.
    repeat match goal with |- _ /\ _ => split end;
      try assumption; try sets.
    cbn [token_after_split].
    apply (stands_mono _ _ _ A); [sets|].
    apply (stands_frame h); [|exact S0].
    apply grows_same_on; assumption.
  - cbn [stands] in S.
    destruct S as (l & o & -> & R & T1 & T2 & T3 & Al & l' & C & S').
    cbn [Store.splitToken splitToken].
    unfold Store.bind at 1. unfold Store.get. rewrite R. rewrite C.
    simpl (height _) in F.
    destruct (nested_refines fuel type al len (COne t) [t] h l o
                [Store.VRef l'] A start)
      as (h' & res & E & Ch & N1 & N2 & N3 & Sm); try assumption.
    + constructor; [|constructor]. apply IH. lia.
    + rewrite heights_cons. simpl (heights []). lia.
    + apply stands_all_one. exact S'.
    + exists h', res. split; [exact E|]. split; [exact Ch|].
      exists nothing, (union A (fresh h h')), nothing.
      rewrite N1, N2, N3. cbn [before marked after token_after_split].
      repeat match goal with |- _ /\ _ => split end;
        try assumption; try exact I; sets.
  - cbn [stands] in S.
    destruct S as (l & o & -> & R & T1 & T2 & T3 & Al & vs & C & S').
    cbn [Store.splitToken splitToken].
    unfold Store.bind at 1. unfold Store.get. rewrite R. rewrite C.
    simpl (height _) in F. fold (heights ts) in F.
    destruct (nested_refines fuel type al len (CArr ts) ts h l o
                vs A start)
      as (h' & res & E & Ch & N1 & N2 & N3 & Sm); try assumption.
    + rewrite Forall_forall in IH |- *. intros t It. apply IH; [exact It|].
      pose proof (height_le_heights t ts It). lia.
    + lia.
    + exists h', res. split; [exact E|]. split; [exact Ch|].
      exists nothing, (union A (fresh h h')), nothing.
      rewrite N1, N2, N3. cbn [before marked after token_after_split].
      repeat match goal with |- _ /\ _ => split end;
        try assumption; try exact I; sets.
Qed.

End Split.

Lemma trees_all (fuel : nat) (h : Store.heap) (ts : list token) :
  Forall (fun t => forall v A, stands h t v A -> (height t < fuel)%nat ->
            Store.tree fuel h v = Some t) ts ->
  forall vs A,
    stands_all h ts vs A -> (heights ts < fuel)%nat ->
    Store.trees fuel h vs = Some ts.
Proof.
  induction 1 as [|t ts Pt Pts IH]; intros [|v vs] A S F;
    try contradiction; [reflexivity|].
  destruct S as (B & C & S1 & S2 & _).
  rewrite heights_cons in F. unfold Store.trees in *. cbn [fold_right].
  rewrite (IH vs C S2) by lia. rewrite (Pt v B S1) by lia. reflexivity.
Qed.

(** A value that stands for a tree is read back as that tree. *)
Lemma stands_tree (h : Store.heap) (fuel : nat) :
  forall t v A,
    stands h t v A -> (height t < fuel)%nat -> Store.tree fuel h v = Some t.
Proof.
  induction fuel as [|fuel IHf]; intros t v A S F; [lia|].
  destruct t as [x|type c al len].
  - simpl in S. subst v. reflexivity.
  - destruct S as (l & o & -> & R & T1 & T2 & T3 & Al & C).
    cbn [Store.tree]. rewrite R, T1, T2, T3.
    destruct c as [x|t'|ts].
    + rewrite C. reflexivity.
    + destruct C as (l' & C & S'). rewrite C.
      rewrite (IHf t' _ _ S'); [reflexivity|]. simpl in F. lia.
    + destruct C as (vs & C & S'). rewrite C.
      fold (Store.trees fuel h vs).
      rewrite (trees_all fuel h ts) with (A := without A l);
        [reflexivity | | exact S' |].
      * apply Forall_forall. intros t _ v B. apply IHf.
      * simpl in F. unfold heights. lia.
Qed.

Lemma stands_all_trees (h : Store.heap) (fuel : nat) (ts : list token)
    (vs : list Store.value) (A : own) :
  stands_all h ts vs A -> (heights ts < fuel)%nat ->
  Store.trees fuel h vs = Some ts.
Proof.
  apply trees_all. apply Forall_forall. intros t _ v B. apply stands_tree.
Qed.

(** X14: the store model refines the tree model: on a store where the
    values [vs] stand for the trees [ts], with no object shared, the run of
    [convertMarked] in the store returns, it leaves the objects outside the
    trees as they were, and the values it returns stand for the trees that
    [convertMarked] gives on [ts]. *)
Theorem store_refines_tree (fuel : nat) (r : range) (message : string)
    (ts : list token) (h : Store.heap) (vs : list Store.value) (A : own)
    (start : Z) :
  stands_all h ts vs A -> bounded h A -> (heights ts + 2 < fuel)%nat ->
  exists h' out,
    Store.convertMarked fuel vs r message start h = Some (h', out)
    /\ changes h h' A
    /\ (exists A', stands_all h' (convertMarked ts r message start) out A')
    /\ Store.trees fuel h' out = Some (convertMarked ts r message start).
Proof.
  intros S B F.
  destruct (walk_refines fuel (Store.splitToken fuel r message) r message ts)
    with (h := h) (vs := vs) (A := A) (start := start)
    as (h' & out & E & Ch & A' & W & SO); try assumption.
  - apply Forall_forall. intros t It. apply split_refines.
    pose proof (height_le_heights t ts It). lia.
  - exists h', out. split; [exact E|]. split; [exact Ch|].
    split; [exists A'; exact SO|].
    apply (stands_all_trees h' fuel _ out A' SO).
    pose proof (walk_heights r message ts) as WH.
    unfold convertMarked.
    specialize (WH (proj2 (Forall_forall _ _)
                      (fun t _ => splitToken_heights r message t)) start).
    lia.
Qed.

(** The hypotheses hold of the store of the first example. *)
Lemma store_refines_tree_example :
  exists h' out,
    Store.convertMarked 8 [Store.VRef 0%nat; Store.VStr "zw"]
      (Num 1, Num 3) "M" 0 nested_then_text_heap = Some (h', out)
    /\ Store.trees 8 h' out
       = Some (convertMarked nested_then_text (Num 1, Num 3) "M" 0).
Proof.
  destruct (store_refines_tree 8 (Num 1, Num 3) "M" nested_then_text
              nested_then_text_heap [Store.VRef 0%nat; Store.VStr "zw"]
              (fun l => l = 0%nat) 0)
    as (h' & out & E & _ & _ & T).
  - exists (fun l => l = 0%nat), nothing.
    repeat match goal with |- _ /\ _ => split end.
    + exists 0%nat, (Store.mkObject "template-string"
                       (Store.HArr [Store.VStr "xy"]) AliasUndefined 2).
      repeat match goal with |- _ /\ _ => split end; try reflexivity.
      exists [Store.VStr "xy"]. split; [reflexivity|].
      exists nothing, nothing.
      repeat match goal with |- _ /\ _ => split end;
        try reflexivity; try exact I; sets.
    + exists nothing, nothing.
      repeat match goal with |- _ /\ _ => split end;
        try reflexivity; try exact I; sets.
    + sets.
    + sets.
    + sets.
  - intros l ->. simpl. lia.
  - simpl. lia.
  - exists h', out. split; assumption.
Defined.

End RefinementFacts.

(** ** Further properties of the hook *)

(** *** One range on tokens without nested content *)

(** X1: one range that begins inside the text of a stream of plain tokens
    keeps the text of the stream, and adds exactly one [eslint-marked] token
    and one [eslint-message] token, however many tokens the range crosses. *)
Theorem marking_plain_tokens_keeps_the_text (tokens : list token) (s e : Z)
    (message : string) :
  forallb plain tokens = true ->
  0 <= s < e ->
  s < len (text tokens) ->
  text (convertMarked tokens (Num s, Num e) message 0) = text tokens
  /\ count_types ESLINT_MARKED (convertMarked tokens (Num s, Num e) message 0)
     = 1%nat
  /\ count_types ESLINT_MESSAGE (convertMarked tokens (Num s, Num e) message 0)
     = 1%nat.
Proof. apply plain_tokens_text_and_counts. Qed.

Lemma marking_plain_tokens_keeps_the_text_witness :
  text (convertMarked [Str "ab"; Tok "keyword" (CStr "cd") AliasUndefined 2;
                       Str "ef"] (Num 1, Num 5) "M" 0)
  = text [Str "ab"; Tok "keyword" (CStr "cd") AliasUndefined 2; Str "ef"]
  /\ count_types ESLINT_MARKED
       (convertMarked [Str "ab"; Tok "keyword" (CStr "cd") AliasUndefined 2;
                       Str "ef"] (Num 1, Num 5) "M" 0) = 1%nat
  /\ count_types ESLINT_MESSAGE
       (convertMarked [Str "ab"; Tok "keyword" (CStr "cd") AliasUndefined 2;
                       Str "ef"] (Num 1, Num 5) "M" 0) = 1%nat.
Proof.
  apply (marking_plain_tokens_keeps_the_text
           [Str "ab"; Tok "keyword" (CStr "cd") AliasUndefined 2; Str "ef"]
           1 5 "M").
  - reflexivity.
  - lia.
  - vm_compute. reflexivity.
Defined.

(** X2: on plain tokens the wrapper sits exactly on the range: the tokens
    before it hold the text up to the start of the range, the wrapper holds
    the text of the range, cut at the end of the text, followed by the
    message, and the tokens after it hold the text from the end of the
    range; the wrapper is tagged as a line feed when the range has length
    one and its text is a line feed, and not otherwise. *)
Theorem marking_plain_tokens_is_exact (tokens : list token) (s e : Z)
    (message : string) :
  forallb plain tokens = true ->
  0 <= s < e ->
  s < len (text tokens) ->
  exists pre inner post,
    convertMarked tokens (Num s, Num e) message 0
    = (pre
       ++ [Tok ESLINT_MARKED (CArr (inner ++ [messageToken message]))
             (AliasArr
                (if String.eqb (slice (text tokens) s e) LF && (s + 1 =? e)
                 then [ESLINT_MARKED_LINE_FEED] else [])) 0]
       ++ post)%list
    /\ text pre = slice (text tokens) 0 s
    /\ text inner = slice (text tokens) s e
    /\ text post = slice_from (text tokens) e
    /\ count_types ESLINT_MARKED (pre ++ inner ++ post) = 0%nat
    /\ count_types ESLINT_MESSAGE (pre ++ inner ++ post) = 0%nat.
Proof.
  intros P R L.
  destruct (plain_tokens_one_range tokens s e message P R L)
    as (pre & inner & post & E & T1 & T2 & T3 & U).
  exists pre, inner, post. rewrite <- T2.
  repeat match goal with |- _ /\ _ => split end;
    try assumption; try reflexivity.
  - apply count_types_unmarked; [left; reflexivity | exact U].
  - apply count_types_unmarked; [right; reflexivity | exact U].
Qed.

Lemma marking_plain_tokens_is_exact_witness :
  exists pre inner post,
    convertMarked [Str "ab"; Str "cd"; Str "ef"] (Num 1, Num 5) "M" 0
    = (pre
       ++ [Tok ESLINT_MARKED (CArr (inner ++ [messageToken "M"]))
             (AliasArr
                (if String.eqb
                      (slice (text [Str "ab"; Str "cd"; Str "ef"]) 1 5) LF
                    && (1 + 1 =? 5)
                 then [ESLINT_MARKED_LINE_FEED] else [])) 0]
       ++ post)%list
    /\ text pre = slice (text [Str "ab"; Str "cd"; Str "ef"]) 0 1
    /\ text inner = slice (text [Str "ab"; Str "cd"; Str "ef"]) 1 5
    /\ text post = slice_from (text [Str "ab"; Str "cd"; Str "ef"]) 5
    /\ count_types ESLINT_MARKED (pre ++ inner ++ post) = 0%nat
    /\ count_types ESLINT_MESSAGE (pre ++ inner ++ post) = 0%nat.
Proof.
  apply (marking_plain_tokens_is_exact [Str "ab"; Str "cd"; Str "ef"] 1 5 "M").
  - reflexivity.
  - lia.
  - vm_compute. reflexivity.
Defined.

(** X3: a range that begins at or after the end of the text changes nothing,
    whatever its end is, when no token of the stream is an empty string. *)
Theorem range_past_the_text_changes_nothing (tokens : list token) (s : Z)
    (e : num) (message : string) :
  forallb truthy tokens = true ->
  len (text tokens) <= s ->
  convertMarked tokens (Num s, e) message 0 = tokens.
Proof. apply convertMarked_past_the_end. Qed.

Lemma range_past_the_text_changes_nothing_witness :
  convertMarked nested_then_text (Num 4, NaN) "M" 0 = nested_then_text.
Proof.
  apply (range_past_the_text_changes_nothing nested_then_text 4 NaN "M").
  - reflexivity.
  - vm_compute. discriminate.
Defined.

(** X4: the tokens that end at or before the start of the range are passed
    as they are, nested content included, and so are all the tokens after
    the plain tokens that the range lies in: only the tokens in between are
    converted. *)
Theorem tokens_outside_the_range_are_passed (pre mid post : list token)
    (s e : Z) (message : string) :
  forallb truthy pre = true ->
  forallb plain mid = true ->
  len (text pre) <= s ->
  s < len (text pre) + len (text mid) ->
  e <= len (text pre) + len (text mid) ->
  convertMarked (pre ++ mid ++ post) (Num s, Num e) message 0
  = (pre ++ convertMarked mid (Num s, Num e) message (len (text pre))
     ++ post)%list.
Proof. apply tokens_around_the_range_pass. Qed.

Lemma tokens_outside_the_range_are_passed_witness :
  convertMarked (nested_then_text ++ [Str "ab"] ++ [Str ""; Str "cd"])
    (Num 4, Num 6) "M" 0
  = (nested_then_text
     ++ convertMarked [Str "ab"] (Num 4, Num 6) "M"
          (len (text nested_then_text))
     ++ [Str ""; Str "cd"])%list.
Proof.
  apply (tokens_outside_the_range_are_passed nested_then_text [Str "ab"]
           [Str ""; Str "cd"] 4 6 "M").
  - reflexivity.
  - reflexivity.
  - vm_compute. discriminate.
  - vm_compute. reflexivity.
  - vm_compute. discriminate.
Defined.

(** *** Several ranges on strings *)



(** X6: the loop over [messageRanges] keeps the text of a stream of strings
    when the ranges are sorted and none begins before the end of the one
    before it: the message tokens count for no text, so the offsets of the
    later ranges still fit. *)
Theorem sorted_ranges_keep_the_text_of_strings (tokens : list token)
    (ranges : list message_range) :
  forallb is_text tokens = true ->
  sorted_from 0 ranges ->
  text (applyRanges ranges tokens) = text tokens.
Proof. apply strings_sorted_ranges_keep_text. Qed.

Lemma sorted_ranges_keep_the_text_of_strings_witness :
  text (applyRanges
          [mkMessageRange "M1" (Num 1, Num 2);
           mkMessageRange "M2" (Num 2, Num 5);
           mkMessageRange "M3" (Num 7, Num 9)]
          [Str "abc"; Str "def"])
  = text [Str "abc"; Str "def"].
Proof.
  apply (sorted_ranges_keep_the_text_of_strings [Str "abc"; Str "def"]
           [mkMessageRange "M1" (Num 1, Num 2);
            mkMessageRange "M2" (Num 2, Num 5);
            mkMessageRange "M3" (Num 7, Num 9)]).
  - reflexivity.
  - cbn [sorted_from mr_range].
    exists 1, 2. split; [reflexivity|]. split; [lia|]. split; [lia|].
    exists 2, 5. split; [reflexivity|]. split; [lia|]. split; [lia|].
    exists 7, 9. split; [reflexivity|]. split; [lia|]. split; [lia|].
    exact I.
Defined.

Lemma slice_same (x : string) (i : Z) : 0 <= i -> slice x i i = "".
Proof.
  intros Hi. rewrite slice_nonneg by lia. rewrite Nat.sub_diag.
  destruct (drop (Z.to_nat i) x); reflexivity.
Qed.

Lemma plain_truthy (t : token) : plain t = true -> truthy t = true.
Proof. destruct t; [auto | reflexivity]. Qed.

Lemma text_one (t : token) : text [t] = getTokenContent t.
Proof. unfold text. cbn [map join fold_right]. apply append_nil_r. Qed.

Lemma getTokenContent_wrapper (inner : token) (message : string) (al : alias)
    (l : Z) :
  getTokenContent
    (Tok ESLINT_MARKED (CArr [inner; messageToken message]) al l)
  = getTokenContent inner.
Proof.
  cbn [getTokenContent map join fold_right messageToken newToken].
  change (String.eqb ESLINT_MARKED ESLINT_MESSAGE) with false.
  change (String.eqb ESLINT_MESSAGE ESLINT_MESSAGE) with true.
  cbv iota. cbn [append]. apply append_nil_r.
Qed.

(** *** Offsets that are no numbers *)

Lemma convertMarked_unknown_offsets (t : token) (rest : list token)
    (message : string) :
  plain t = true ->
  getTokenContent t <> "" ->
  convertMarked (t :: rest) (NaN, NaN) message 0
  = wrapper (rebuild t "") message false :: rest.
Proof.
  intros P N. unfold convertMarked. cbn [walk].
  rewrite (plain_truthy t P).
  assert (E : is_empty (getTokenContent t) = false).
  { destruct (getTokenContent t); [congruence | reflexivity]. }
  rewrite E. cbn [fst num_leb orb].
  assert (S : splitToken (NaN, NaN) message t 0
              = mkSplit None
                  (mkArrayToken ESLINT_MARKED
                     [rebuild t ""; messageToken message] (AliasArr []) 0)
                  None).
  { destruct t as [x | type c al l].
    - cbn [splitToken]. unfold splitText.
      cbn [fst snd num_ltb num_sub num_add num_eqb to_integer truthy_opt
           getTokenContent].
      rewrite slice_same by lia. reflexivity.
    - pose proof (plain_unmarked _ P) as U.
      destruct (unmarked_type _ _ _ _ U) as (T1 & T2 & y & ->).
      cbn [splitToken]. unfold splitText.
      cbn [fst snd num_ltb num_sub num_add num_eqb to_integer truthy_opt].
      rewrite slice_same by lia. reflexivity. }
  rewrite S. cbn [marked after before].
  rewrite merge_next_stops by reflexivity.
  reflexivity.
Qed.

(** X7: when both offsets of the range are [NaN], the first token, if it is
    a plain token with text, is replaced by a wrapper of an empty token of
    its kind: its text is gone from the stream, and the tokens after it are
    passed as they are. *)
Theorem unknown_offsets_empty_the_first_token (t : token)
    (rest : list token) (message : string) :
  plain t = true ->
  getTokenContent t <> "" ->
  convertMarked (t :: rest) (NaN, NaN) message 0
  = wrapper (rebuild t "") message false :: rest.
Proof. apply convertMarked_unknown_offsets. Qed.

Lemma unknown_offsets_empty_the_first_token_witness :
  convertMarked [Tok "keyword" (CStr "var") AliasUndefined 3; Str " x"]
    (NaN, NaN) "M" 0
  = [wrapper (rebuild (Tok "keyword" (CStr "var") AliasUndefined 3) "")
       "M" false;
     Str " x"].
Proof.
  apply (unknown_offsets_empty_the_first_token
           (Tok "keyword" (CStr "var") AliasUndefined 3) [Str " x"] "M").
  - reflexivity.
  - discriminate.
Defined.

(** *** A range of length zero *)

Lemma walk_empty_range (s : Z) (message : string) (tokens : list token) :
  forall start,
    forallb plain tokens = true ->
    start <= s ->
    s < start + len (text tokens) ->
    exists pre inner post,
      walk (splitToken (Num s, Num s) message) (Num s, Num s) tokens start
      = (pre ++ [wrapper inner message false] ++ post)%list
      /\ getTokenContent inner = ""
      /\ text pre = take (Z.to_nat (s - start)) (text tokens)
      /\ text post = drop (Z.to_nat (s - start)) (text tokens)
      /\ forallb unmarked (pre ++ [inner] ++ post) = true.
Proof.
  induction tokens as [|t tokens IH]; intros start P Hs Hl.
  - unfold text, len in Hl. simpl in Hl. lia.
  - cbn [forallb] in P. apply andb_prop in P. destruct P as [Pt Pts].
    rewrite text_cons in *. rewrite len_append in Hl.
    remember (getTokenContent t) as ct eqn:Hct.
    assert (Hlen : len ct = Z.of_nat (String.length ct)) by reflexivity.
    cbn [walk]. rewrite (plain_truthy t Pt), <- Hct. cbn [fst num_leb].
    destruct (is_empty ct || (start + len ct <=? s)) eqn:Pass.
    + assert (L : start + len ct <= s).
      { apply orb_prop in Pass. destruct Pass as [E|E].
        - apply is_empty_true in E. rewrite E. unfold len. simpl. lia.
        - apply Z.leb_le in E. exact E. }
      destruct (IH (start + len ct) Pts) as (pre & inner & post & E & T0 & T1
                                              & T2 & U); try lia.
      exists (t :: pre), inner, post. rewrite E.
      repeat match goal with |- _ /\ _ => split end.
      * reflexivity.
      * exact T0.
      * rewrite text_cons, T1, <- Hct. rewrite take_append_r by lia.
        f_equal. f_equal. lia.
      * rewrite T2. rewrite drop_append_r by lia. f_equal. lia.
      * cbn [app forallb]. cbn [app] in U.
        rewrite U, (plain_unmarked _ Pt). reflexivity.
    + apply orb_false_elim in Pass. destruct Pass as [Ne Gt].
      apply Z.leb_gt in Gt. apply is_empty_false in Ne.
      pose proof (plain_unmarked _ Pt) as Ut.
      rewrite splitToken_plain by exact Pt. rewrite <- Hct.
      unfold splitText.
      cbn [fst snd num_ltb num_sub num_add num_eqb to_integer before marked
           after].
      set (bef := if start <? s then _ else None).
      assert (Hmark : slice ct (if truthy_opt bef then s - start else 0)
                        (s - start) = "").
      { unfold bef. destruct (start <? s) eqn:C.
        - apply Z.ltb_lt in C. cbn [truthy_opt].
          rewrite truthy_rebuild.
          + apply slice_same. lia.
          + rewrite slice_nonneg by lia. cbn [Z.to_nat drop].
            apply take_nonempty; [lia|]. intros Z0. rewrite Z0 in Ne.
            unfold len in Ne. simpl in Ne. lia.
        - apply Z.ltb_ge in C. cbn [truthy_opt].
          replace (s - start) with 0 by lia. apply slice_same. lia. }
      rewrite Hmark.
      change (String.eqb "" LF) with false. cbn [andb].
      assert (A : (s - start <? len ct) = true) by (apply Z.ltb_lt; lia).
      rewrite A.
      rewrite merge_next_stops
        by (cbn [snd num_ltb]; apply Z.ltb_ge; lia).
      cbn [token_of at_type at_content at_alias at_length].
      exists (yield_if bef), (rebuild t ""),
        (yield_if (Some (rebuild t (slice_from ct (s - start))))
         ++ tokens)%list.
      assert (Ta : truthy (rebuild t (slice_from ct (s - start))) = true).
      { apply truthy_rebuild. rewrite slice_from_nonneg by lia.
        apply drop_nonempty. lia. }
      repeat match goal with |- _ /\ _ => split end.
      * reflexivity.
      * apply getTokenContent_rebuild. exact Ut.
      * unfold bef. destruct (start <? s) eqn:C.
        -- apply Z.ltb_lt in C. rewrite slice_nonneg by lia.
           cbn [Z.to_nat drop yield_if]. rewrite Nat.sub_0_r.
           rewrite truthy_rebuild.
           ++ rewrite text_one, getTokenContent_rebuild by exact Ut.
              rewrite take_append_l by lia. reflexivity.
           ++ apply take_nonempty; [lia|]. intros Z0. rewrite Z0 in Ne.
              unfold len in Ne. simpl in Ne. lia.
        -- apply Z.ltb_ge in C.
           replace (Z.to_nat (s - start)) with 0%nat by lia. reflexivity.
      * cbn [yield_if]. rewrite Ta. rewrite text_app, text_one.
        rewrite getTokenContent_rebuild by exact Ut.
        rewrite slice_from_nonneg by lia.
        rewrite drop_append_l by lia. reflexivity.
      * rewrite !forallb_app. cbn [yield_if]. rewrite Ta.
        cbn [forallb].
        rewrite !unmarked_rebuild by exact Ut.
        unfold bef. rewrite unmarked_yield_if by exact Ut.
        rewrite (forallb_plain_unmarked _ Pts). reflexivity.
Qed.

(** X8: a range of length zero inside the text of a stream of plain tokens
    puts a wrapper without text, with the message, at its offset: the
    tokens before the wrapper hold the text up to the offset, the tokens
    after it the text from the offset, and no other wrapper or message is
    added. *)
Theorem empty_range_adds_a_wrapper_without_text (tokens : list token)
    (s : Z) (message : string) :
  forallb plain tokens = true ->
  0 <= s < len (text tokens) ->
  exists pre inner post,
    convertMarked tokens (Num s, Num s) message 0
    = (pre ++ [wrapper inner message false] ++ post)%list
    /\ getTokenContent inner = ""
    /\ text pre = slice (text tokens) 0 s
    /\ text post = slice_from (text tokens) s
    /\ text (convertMarked tokens (Num s, Num s) message 0) = text tokens
    /\ count_types ESLINT_MARKED
         (convertMarked tokens (Num s, Num s) message 0) = 1%nat
    /\ count_types ESLINT_MESSAGE
         (convertMarked tokens (Num s, Num s) message 0) = 1%nat.
Proof.
  intros P [Hs Hl].
  destruct (walk_empty_range s message tokens 0 P) as
    (pre & inner & post & E & T0 & T1 & T2 & U); try lia.
  rewrite Z.sub_0_r in *.
  exists pre, inner, post. unfold convertMarked. rewrite E.
  rewrite !forallb_app in U.
  apply andb_prop in U. destruct U as [U1 U].
  apply andb_prop in U. destruct U as [U2 U3].
  repeat match goal with |- _ /\ _ => split end.
  - reflexivity.
  - exact T0.
  - rewrite T1, slice_nonneg by lia. cbn [Z.to_nat drop].
    rewrite Nat.sub_0_r. reflexivity.
  - rewrite T2, slice_from_nonneg by lia. reflexivity.
  - rewrite !text_app, text_one. unfold wrapper.
    rewrite getTokenContent_wrapper, T0, T1, T2. cbn [append].
    apply take_drop.
  - rewrite !count_types_app.
    rewrite (count_types_unmarked _ pre), (count_types_unmarked _ post)
      by (auto || assumption).
    unfold count_types. cbn [map list_sum fold_right wrapper count_type
                             messageToken newToken].
    change (String.eqb ESLINT_MARKED ESLINT_MARKED) with true.
    change (String.eqb ESLINT_MESSAGE ESLINT_MARKED) with false.
    pose proof (count_types_unmarked ESLINT_MARKED [inner]
                  (or_introl eq_refl) U2) as C.
    unfold count_types in C. cbn [map list_sum fold_right] in C.
    cbv iota. lia.
  - rewrite !count_types_app.
    rewrite (count_types_unmarked _ pre), (count_types_unmarked _ post)
      by (auto || assumption).
    unfold count_types. cbn [map list_sum fold_right wrapper count_type
                             messageToken newToken].
    change (String.eqb ESLINT_MARKED ESLINT_MESSAGE) with false.
    change (String.eqb ESLINT_MESSAGE ESLINT_MESSAGE) with true.
    pose proof (count_types_unmarked ESLINT_MESSAGE [inner]
                  (or_intror eq_refl) U2) as C.
    unfold count_types in C. cbn [map list_sum fold_right] in C.
    cbv iota. lia.
Qed.

Lemma empty_range_adds_a_wrapper_without_text_witness :
  exists pre inner post,
    convertMarked [Str "ab"; Tok "keyword" (CStr "cd") AliasUndefined 2]
      (Num 3, Num 3) "M" 0
    = (pre ++ [wrapper inner "M" false] ++ post)%list
    /\ getTokenContent inner = ""
    /\ text pre
       = slice (text [Str "ab"; Tok "keyword" (CStr "cd") AliasUndefined 2])
           0 3
    /\ text post
       = slice_from
           (text [Str "ab"; Tok "keyword" (CStr "cd") AliasUndefined 2]) 3
    /\ text (convertMarked
               [Str "ab"; Tok "keyword" (CStr "cd") AliasUndefined 2]
               (Num 3, Num 3) "M" 0)
       = text [Str "ab"; Tok "keyword" (CStr "cd") AliasUndefined 2]
    /\ count_types ESLINT_MARKED
         (convertMarked
            [Str "ab"; Tok "keyword" (CStr "cd") AliasUndefined 2]
            (Num 3, Num 3) "M" 0) = 1%nat
    /\ count_types ESLINT_MESSAGE
         (convertMarked
            [Str "ab"; Tok "keyword" (CStr "cd") AliasUndefined 2]
            (Num 3, Num 3) "M" 0) = 1%nat.
Proof.
  apply (empty_range_adds_a_wrapper_without_text
           [Str "ab"; Tok "keyword" (CStr "cd") AliasUndefined 2] 3 "M").
  - reflexivity.
  - vm_compute. split; [discriminate | reflexivity].
Defined.

(** *** A token built by the hook, split again *)

(** X9: the tokens that the hook builds have [length] 0, and [splitToken]
    compares the end of the range with [token.length]: when a range ends
    inside such a token, no token is built for the text after the range,
    and that text is gone from the stream. *)
Theorem rebuilt_token_loses_its_tail (type x : string) (al : alias)
    (rest : list token) (s e : Z) (message : string) :
  unmarked (newToken type (CStr x) al) = true ->
  0 <= s < e ->
  e < len x ->
  text (convertMarked (newToken type (CStr x) al :: rest) (Num s, Num e)
          message 0)
  = slice x 0 e ++ text rest.
Proof.
  intros U [Hs He] Hx.
  destruct (unmarked_type _ _ _ _ U) as (T1 & T2 & _).
  assert (Hlen : len x = Z.of_nat (String.length x)) by reflexivity.
  assert (Ne : x <> "").
  { intros ->. unfold len in Hx. simpl in Hx. lia. }
  unfold convertMarked, newToken. cbn [walk truthy getTokenContent].
  rewrite T1.
  assert (E : is_empty x = false) by (destruct x; [congruence | reflexivity]).
  rewrite E. cbn [fst num_leb orb].
  replace (0 + len x <=? s) with false by (symmetry; apply Z.leb_gt; lia).
  cbn [splitToken getTokenContent token_length]. rewrite T1.
  unfold splitText.
  cbn [fst snd num_ltb num_sub num_add num_eqb to_integer before marked
       after].
  replace (e - 0 <? 0) with false by (symmetry; apply Z.ltb_ge; lia).
  rewrite merge_next_stops
    by (cbn [snd num_ltb]; apply Z.ltb_ge; lia).
  cbn [token_of at_type at_content at_alias at_length yield_if app].
  rewrite !Z.sub_0_r.
  destruct (0 <? s) eqn:C.
  - apply Z.ltb_lt in C.
    assert (Tb : truthy (newToken type (CStr (slice x 0 s)) al) = true)
      by reflexivity.
    cbn [truthy_opt yield_if]. rewrite Tb.
    cbn [app token_of at_type at_content at_alias at_length].
    rewrite !text_cons. unfold token_of.
    cbn [at_type at_content at_alias at_length].
    rewrite getTokenContent_wrapper.
    cbn [newToken getTokenContent]. rewrite T1.
    rewrite !slice_nonneg by lia. cbn [Z.to_nat drop].
    rewrite !Nat.sub_0_r.
    rewrite <- append_assoc. f_equal.
    rewrite <- (take_drop (Z.to_nat s) (take (Z.to_nat e) x)).
    f_equal.
    + rewrite <- (take_drop (Z.to_nat e) x) at 1.
      rewrite take_append_l by (rewrite length_take; lia). reflexivity.
    + rewrite <- (take_drop (Z.to_nat e) x) at 1.
      rewrite drop_append_l by (rewrite length_take; lia).
      rewrite take_append_l
        by (rewrite length_drop, length_take; lia).
      apply take_all. rewrite length_drop, length_take. lia.
  - apply Z.ltb_ge in C. assert (s = 0) by lia. subst s.
    cbn [truthy_opt yield_if app token_of at_type at_content at_alias
         at_length].
    rewrite !text_cons. unfold token_of.
    cbn [at_type at_content at_alias at_length].
    rewrite getTokenContent_wrapper.
    cbn [newToken getTokenContent]. rewrite T1. reflexivity.
Qed.

Lemma rebuilt_token_loses_its_tail_witness :
  text (convertMarked
          (newToken "string" (CStr "abcdef") AliasUndefined :: [Str "g"])
          (Num 1, Num 3) "M" 0)
  = slice "abcdef" 0 3 ++ text [Str "g"].
Proof.
  apply (rebuilt_token_loses_its_tail "string" "abcdef" AliasUndefined
           [Str "g"] 1 3 "M").
  - reflexivity.
  - lia.
  - vm_compute. reflexivity.
Defined.

(** *** A range inside a token with nested content *)

(** X10: when the range begins and ends inside one token whose content is a
    token or an array, the tokens before and after that token are passed as
    they are and the token stays in its place with its type, alias and
    length: its content becomes the array of the converted content. *)
Theorem range_inside_a_nested_token (pre post : list token) (type : string)
    (content : tcontent) (al : alias) (l : Z) (s e : Z) (message : string) :
  forallb truthy pre = true ->
  (forall x, content <> CStr x) ->
  len (text pre) <= s ->
  s < len (text pre) + len (getTokenContent (Tok type content al l)) ->
  e <= len (text pre) + len (getTokenContent (Tok type content al l)) ->
  convertMarked (pre ++ [Tok type content al l] ++ post) (Num s, Num e)
    message 0
  = (pre
     ++ [Tok type
           (CArr (convertMarked (flat content) (Num s, Num e) message
                    (len (text pre))))
           al l]
     ++ post)%list.
Proof.
  intros Tp Nc Hp Hs He.
  unfold convertMarked at 1.
  rewrite walk_passes_prefix by (assumption || lia).
  f_equal. rewrite Z.add_0_l.
  set (T := Tok type content al l) in *.
  set (ct := getTokenContent T) in *.
  assert (Hlen : len ct = Z.of_nat (String.length ct)) by reflexivity.
  cbn [app walk]. change (truthy T) with true. cbv iota.
  fold ct.
  assert (E : is_empty ct = false) by (apply is_empty_false; lia).
  rewrite E. cbn [fst num_leb orb].
  replace (len (text pre) + len ct <=? s) with false
    by (symmetry; apply Z.leb_gt; lia).
  unfold T. rewrite !(splitToken_nested _ _ _ _ _ _ _ Nc).
  cbn [before marked after].
  rewrite merge_next_stops
    by (cbn [snd num_ltb]; apply Z.ltb_ge; lia).
  reflexivity.
Qed.

Lemma range_inside_a_nested_token_witness :
  convertMarked
    ([Str "ab"]
     ++ [Tok "template-string" (CArr [Str "cd"; Str "ef"]) AliasUndefined 4]
     ++ [Str "gh"]) (Num 3, Num 5) "M" 0
  = ([Str "ab"]
     ++ [Tok "template-string"
           (CArr (convertMarked (flat (CArr [Str "cd"; Str "ef"]))
                    (Num 3, Num 5) "M" (len (text [Str "ab"]))))
           AliasUndefined 4]
     ++ [Str "gh"])%list.
Proof.
  apply (range_inside_a_nested_token [Str "ab"] [Str "gh"] "template-string"
           (CArr [Str "cd"; Str "ef"]) AliasUndefined 4 3 5 "M").
  - reflexivity.
  - discriminate.
  - vm_compute. discriminate.
  - vm_compute. reflexivity.
  - vm_compute. discriminate.
Defined.

(** *** From locations to offsets *)

Section Locations.

Context `{Collaborators}.

Lemma length_lineStartIndices (c : string) :
  List.length (lineStartIndices c)
  = S (List.length (linebreak_matches c)).
Proof.
  unfold lineStartIndices. cbn [List.length]. rewrite length_map.
  reflexivity.
Qed.

Lemma getIndexFromLoc_outside (indices : list Z) (line column : Z) :
  line < 1 \/ Z.of_nat (List.length indices) < line ->
  getIndexFromLoc indices line column = NaN.
Proof.
  intros O. unfold getIndexFromLoc.
  destruct (line - 1 <? 0) eqn:C; [reflexivity|].
  apply Z.ltb_ge in C.
  destruct (nth_error indices (Z.to_nat (line - 1))) eqn:N; [|reflexivity].
  exfalso.
  assert (L : (Z.to_nat (line - 1) < List.length indices)%nat).
  { apply nth_error_Some. rewrite N. discriminate. }
  lia.
Qed.

(** X11: the offset of a location.  On line 1 it is [column - 1]; on a later
    line it is the end of the line break before that line, plus
    [column - 1]; for a line that the code does not have, line 0 and
    negative lines included, it is [NaN]. *)
Theorem offset_of_a_location (c : string) (line column : Z) :
  (line = 1 ->
   getIndexFromLoc (lineStartIndices c) line column = Num (column - 1))
  /\ (forall i l,
         2 <= line ->
         nth_error (linebreak_matches c) (Z.to_nat (line - 2)) = Some (i, l) ->
         getIndexFromLoc (lineStartIndices c) line column
         = Num (i + l + column - 1))
  /\ (line < 1 \/ 1 + Z.of_nat (List.length (linebreak_matches c)) < line ->
      getIndexFromLoc (lineStartIndices c) line column = NaN).
Proof.
  repeat match goal with |- _ /\ _ => split end.
  - intros ->. reflexivity.
  - intros i l L N. apply getIndexFromLoc_in_table; [lia|].
    unfold lineStartIndices.
    replace (Z.to_nat (line - 1)) with (S (Z.to_nat (line - 2))) by lia.
    cbn [nth_error]. rewrite nth_error_map, N. reflexivity.
  - intros O. apply getIndexFromLoc_outside.
    rewrite length_lineStartIndices. lia.
Qed.

End Locations.

Lemma offset_of_a_location_witness :
  @getIndexFromLoc (@lineStartIndices (line_collaborators []) two_lines) 1 2
  = Num (2 - 1)
  /\ @getIndexFromLoc (@lineStartIndices (line_collaborators []) two_lines) 2 2
     = Num (2 + 1 + 2 - 1)
  /\ @getIndexFromLoc (@lineStartIndices (line_collaborators []) two_lines) 3 1
     = NaN
  /\ @getIndexFromLoc (@lineStartIndices (line_collaborators []) two_lines) 0 1
     = NaN.
Proof.
  repeat match goal with |- _ /\ _ => split end.
  - apply (proj1 (@offset_of_a_location (line_collaborators []) two_lines
                    1 2)).
    reflexivity.
  - apply (proj1 (proj2 (@offset_of_a_location (line_collaborators [])
                           two_lines 2 2)) 2 1).
    + lia.
    + reflexivity.
  - apply (proj2 (proj2 (@offset_of_a_location (line_collaborators [])
                           two_lines 3 1))).
    right. vm_compute. reflexivity.
  - apply (proj2 (proj2 (@offset_of_a_location (line_collaborators [])
                           two_lines 0 1))).
    left. lia.
Defined.

(** *** The hook on one report *)

Section OneReport.

Context `{Collaborators}.

Variable st : module_state.
Variable e : env.
Variable options : ParserOptions.
Variable m : lint_message.

Hypothesis registered : contentMustBeMarked st = Some (code e).
Hypothesis with_options : contentParserOptions st = Some options.
Hypothesis one_report :
  linter_verify (docsExampleCodeToParsableCode (code e)) options = [m].
Hypothesis not_fatal : lm_fatal m = false.

Lemma afterTokenize_one_report :
  afterTokenize st e
  = (mkState None (Some options),
     Returned
       (mkEnv (code e)
          (convertMarked (tokens e)
             (mr_range (messageRange (lineStartIndices (code e)) m))
             (lm_message m) 0))).
Proof.
  unfold afterTokenize.
  rewrite (proj2 (differs_false _ _) registered), with_options, one_report.
  cbn [existsb]. rewrite not_fatal. reflexivity.
Qed.

(** X12: the hook on one report that is not fatal and whose range
    [[s, end)] begins inside the text of a stream of plain tokens: the
    registration is cleared and the tokens become the tokens before offset
    [s], one wrapper with the text of the range and the message of the
    report, and the tokens from the end of the range. *)
Theorem hook_marks_the_range_of_one_report (s e' : Z) :
  mr_range (messageRange (lineStartIndices (code e)) m) = (Num s, Num e') ->
  forallb plain (tokens e) = true ->
  0 <= s < e' ->
  s < len (text (tokens e)) ->
  exists pre inner post al,
    afterTokenize st e
    = (mkState None (Some options),
       Returned
         (mkEnv (code e)
            (pre
             ++ [Tok ESLINT_MARKED
                   (CArr (inner ++ [messageToken (lm_message m)])) al 0]
             ++ post)%list))
    /\ text pre = slice (text (tokens e)) 0 s
    /\ text inner = slice (text (tokens e)) s e'
    /\ text post = slice_from (text (tokens e)) e'.
Proof.
  intros R P B L.
  destruct (plain_tokens_one_range (tokens e) s e' (lm_message m) P B L)
    as (pre & inner & post & E & T1 & T2 & T3 & _).
  exists pre, inner, post. eexists.
  rewrite afterTokenize_one_report, R, E.
  repeat match goal with |- _ /\ _ => split end;
    try assumption; reflexivity.
Qed.

(** X13: the hook on one report that is not fatal, has no end location and
    is on a line that the code does not have: both offsets are [NaN], and
    the first token, a plain token with text, is replaced by a wrapper of
    an empty token of its kind, with the message; the other tokens stay. *)
Theorem hook_on_a_report_outside_the_code (t : token) (rest : list token) :
  lm_end m = None ->
  lm_line m < 1
  \/ 1 + Z.of_nat (List.length (linebreak_matches (code e))) < lm_line m ->
  tokens e = t :: rest ->
  plain t = true ->
  getTokenContent t <> "" ->
  mr_range (messageRange (lineStartIndices (code e)) m) = (NaN, NaN)
  /\ afterTokenize st e
     = (mkState None (Some options),
        Returned
          (mkEnv (code e)
             (wrapper (rebuild t "") (lm_message m) false :: rest))).
Proof.
  intros E O T P N.
  assert (R : mr_range (messageRange (lineStartIndices (code e)) m)
              = (NaN, NaN)).
  { unfold messageRange. cbn [mr_range]. rewrite E.
    rewrite getIndexFromLoc_outside
      by (rewrite length_lineStartIndices; lia).
    reflexivity. }
  split; [exact R|].
  rewrite afterTokenize_one_report, R, T.
  rewrite convertMarked_unknown_offsets by assumption. reflexivity.
Qed.

End OneReport.

Lemma hook_marks_the_range_of_one_report_witness :
  exists pre inner post al,
    @afterTokenize
      (line_collaborators [mkLintMessage "M" 2 1 (Some (2, 3)) false])
      (line_state [mkLintMessage "M" 2 1 (Some (2, 3)) false]
         (Some two_lines))
      (mkEnv two_lines [Str "ab"; Str LF; Str "cd"])
    = (line_state [mkLintMessage "M" 2 1 (Some (2, 3)) false] None,
       Returned
         (mkEnv two_lines
            (pre
             ++ [Tok ESLINT_MARKED (CArr (inner ++ [messageToken "M"])) al 0]
             ++ post)%list))
    /\ text pre = slice (text [Str "ab"; Str LF; Str "cd"]) 0 3
    /\ text inner = slice (text [Str "ab"; Str LF; Str "cd"]) 3 5
    /\ text post = slice_from (text [Str "ab"; Str LF; Str "cd"]) 5.
Proof.
  apply (@hook_marks_the_range_of_one_report
           (line_collaborators [mkLintMessage "M" 2 1 (Some (2, 3)) false])
           (line_state [mkLintMessage "M" 2 1 (Some (2, 3)) false]
              (Some two_lines))
           (mkEnv two_lines [Str "ab"; Str LF; Str "cd"])
           tt (mkLintMessage "M" 2 1 (Some (2, 3)) false)
           eq_refl eq_refl eq_refl eq_refl 3 5).
  - reflexivity.
  - reflexivity.
  - lia.
  - vm_compute. reflexivity.
Defined.

Lemma hook_on_a_report_outside_the_code_witness :
  mr_range
    (messageRange
       (@lineStartIndices
          (line_collaborators [mkLintMessage "M" 4 1 None false]) two_lines)
       (mkLintMessage "M" 4 1 None false))
  = (NaN, NaN)
  /\ @afterTokenize
       (line_collaborators [mkLintMessage "M" 4 1 None false])
       (line_state [mkLintMessage "M" 4 1 None false] (Some two_lines))
       (mkEnv two_lines [Str "ab"; Str LF; Str "cd"])
     = (line_state [mkLintMessage "M" 4 1 None false] None,
        Returned
          (mkEnv two_lines
             [wrapper (rebuild (Str "ab") "") "M" false; Str LF; Str "cd"])).
Proof.
  apply (@hook_on_a_report_outside_the_code
           (line_collaborators [mkLintMessage "M" 4 1 None false])
           (line_state [mkLintMessage "M" 4 1 None false] (Some two_lines))
           (mkEnv two_lines [Str "ab"; Str LF; Str "cd"])
           tt (mkLintMessage "M" 4 1 None false)
           eq_refl eq_refl eq_refl eq_refl (Str "ab") [Str LF; Str "cd"]).
  - reflexivity.
  - right. vm_compute. reflexivity.
  - reflexivity.
  - reflexivity.
  - discriminate.
Defined.

(** *** Reports past the end of the text *)

Lemma applyRanges_past_the_text (tokens : list token)
    (ranges : list message_range) :
  forallb truthy tokens = true ->
  Forall (fun mr => exists s,
              fst (mr_range mr) = Num s /\ len (text tokens) <= s) ranges ->
  applyRanges ranges tokens = tokens.
Proof.
  intros T. induction 1 as [|mr ranges (s & R & L) _ IH]; [reflexivity|].
  unfold applyRanges in *. cbn [fold_left].
  destruct (mr_range mr) as [a b]. cbn [fst] in R. subst a.
  rewrite convertMarked_past_the_end by assumption. exact IH.
Qed.

Section NoReportInTheText.

Context `{Collaborators}.

(** X16: when the content is the registered one, no message is fatal and
    every report begins at or after the end of the text of the tokens, none
    of which is an empty string, the hook leaves [env] as it was; this is so
    when the linter reports nothing.  The registration is cleared all the
    same. *)
Theorem hook_leaves_the_tokens_without_a_report_in_the_text
    (st : module_state) (e : env) (options : ParserOptions) :
  contentMustBeMarked st = Some (code e) ->
  contentParserOptions st = Some options ->
  existsb lm_fatal
    (linter_verify (docsExampleCodeToParsableCode (code e)) options) = false ->
  forallb truthy (tokens e) = true ->
  Forall (fun mr => exists s,
              fst (mr_range mr) = Num s /\ len (text (tokens e)) <= s)
    (messageRanges (code e)
       (linter_verify (docsExampleCodeToParsableCode (code e)) options)) ->
  afterTokenize st e = (mkState None (Some options), Returned e).
Proof.
  intros R O F T P. unfold afterTokenize.
  rewrite (proj2 (differs_false _ _) R), O, F.
  rewrite (applyRanges_past_the_text _ _ T P).
  destruct e; reflexivity.
Qed.

End NoReportInTheText.

Lemma hook_leaves_the_tokens_without_a_report_in_the_text_witness :
  @afterTokenize (line_collaborators [])
    (line_state [] (Some two_lines))
    (mkEnv two_lines [Str "ab"; Str LF; Str "cd"])
  = (line_state [] None,
     Returned (mkEnv two_lines [Str "ab"; Str LF; Str "cd"]))
  /\ @afterTokenize
       (line_collaborators [mkLintMessage "M" 2 3 None false])
       (line_state [mkLintMessage "M" 2 3 None false] (Some two_lines))
       (mkEnv two_lines [Str "ab"; Str LF; Str "cd"])
     = (line_state [mkLintMessage "M" 2 3 None false] None,
        Returned (mkEnv two_lines [Str "ab"; Str LF; Str "cd"])).
Proof.
  split.
  - apply (@hook_leaves_the_tokens_without_a_report_in_the_text
             (line_collaborators []) (line_state [] (Some two_lines))
             (mkEnv two_lines [Str "ab"; Str LF; Str "cd"]) tt
             eq_refl eq_refl eq_refl eq_refl).
    constructor.
  - apply (@hook_leaves_the_tokens_without_a_report_in_the_text
             (line_collaborators [mkLintMessage "M" 2 3 None false])
             (line_state [mkLintMessage "M" 2 3 None false] (Some two_lines))
             (mkEnv two_lines [Str "ab"; Str LF; Str "cd"]) tt
             eq_refl eq_refl eq_refl eq_refl).
    constructor; [|constructor].
    exists 5. split; [reflexivity|]. vm_compute. discriminate.
Defined.

(** *** The loop over the ranges on the store *)

Module StoreLoopFacts.

Import Refinement RefinementFacts.

Lemma convertMarked_refines (fuel : nat) (r : range) (message : string)
    (ts : list token) (h : Store.heap) (vs : list Store.value) (A : own)
    (start : Z) :
  stands_all h ts vs A -> bounded h A -> (heights ts + 2 < fuel)%nat ->
  exists h' out A',
    Store.convertMarked fuel vs r message start h = Some (h', out)
    /\ changes h h' A
    /\ within A' (union A (fresh h h'))
    /\ bounded h' A'
    /\ stands_all h' (convertMarked ts r message start) out A'
    /\ (heights (convertMarked ts r message start) <= heights ts + 2)%nat.
Proof.
  intros S B F.
  destruct (walk_refines fuel (Store.splitToken fuel r message) r message ts)
    with (h := h) (vs := vs) (A := A) (start := start)
    as (h' & out & E & Ch & A' & W & SO); try assumption.
  - apply Forall_forall. intros t It. apply split_refines.
    pose proof (height_le_heights t ts It). lia.
  - exists h', out, A'. split; [exact E|]. split; [exact Ch|].
    assert (L : (List.length h <= List.length h')%nat) by apply Ch.
    split; [exact W|]. split; [sets|]. split; [exact SO|].
    apply (walk_heights r message ts).
    apply Forall_forall. intros t _. apply splitToken_heights.
Qed.

(** X15: the loop over the ranges on a store of token objects.  On a store
    where the values [vs] stand for the trees [ts] and no token object is
    shared, the loop returns, whatever the ranges are: no [pop], [push] or
    spread meets a content that is no array; the objects outside the trees
    are as they were; and the values returned stand for the trees that the
    ranges, applied one after the other, give on [ts]. *)
Theorem store_loop_refines_tree (fuel : nat) (ranges : list message_range) :
  forall (ts : list token) (h : Store.heap) (vs : list Store.value)
         (A : own),
    stands_all h ts vs A -> bounded h A ->
    (heights ts + 2 * List.length ranges < fuel)%nat ->
    exists h' out,
      StoreLoop.applyRanges fuel ranges vs h = Some (h', out)
      /\ changes h h' A
      /\ Store.trees fuel h' out = Some (applyRanges ranges ts).
Proof.
  induction ranges as [|mr ranges IH]; intros ts h vs A S B F.
  - exists h, vs. split; [reflexivity|]. split; [apply changes_refl|].
    apply (stands_all_trees h fuel ts vs A S). cbn [List.length] in F. lia.
  - cbn [List.length] in F.
    destruct (convertMarked_refines fuel (mr_range mr) (mr_message mr) ts h
                vs A 0 S B)
      as (h1 & out1 & A1 & E1 & Ch1 & W1 & B1 & S1 & H1); [lia|].
    destruct (IH _ h1 out1 A1 S1 B1) as (h' & out & E & Ch & T); [lia|].
    exists h', out. cbn [StoreLoop.applyRanges applyRanges fold_left].
    unfold Store.bind. rewrite E1.
    split; [exact E|]. split; [|exact T].
    apply (changes_trans h h1 h' A A1 A Ch1 Ch); sets.
Qed.

Lemma store_loop_refines_tree_witness :
  exists h' out,
    StoreLoop.applyRanges 8
      [mkMessageRange "M1" (Num 1, Num 3); mkMessageRange "M2" (Num 3, Num 4)]
      [Store.VStr "xy"; Store.VRef 0%nat] text_then_nested_heap
    = Some (h', out)
    /\ changes text_then_nested_heap h' (fun l => l = 0%nat)
    /\ Store.trees 8 h' out
       = Some (applyRanges
                 [mkMessageRange "M1" (Num 1, Num 3);
                  mkMessageRange "M2" (Num 3, Num 4)]
                 text_then_nested).
Proof.
  apply (store_loop_refines_tree 8
           [mkMessageRange "M1" (Num 1, Num 3);
            mkMessageRange "M2" (Num 3, Num 4)]
           text_then_nested text_then_nested_heap
           [Store.VStr "xy"; Store.VRef 0%nat] (fun l => l = 0%nat)).
  - exists nothing, (fun l => l = 0%nat).
    repeat match goal with |- _ /\ _ => split end.
    + reflexivity.
    + exists (fun l => l = 0%nat), nothing.
      repeat match goal with |- _ /\ _ => split end.
      * exists 0%nat, (Store.mkObject "template-string"
                         (Store.HArr [Store.VStr "z"; Store.VStr "w"])
                         AliasUndefined 2).
        repeat match goal with |- _ /\ _ => split end; try reflexivity.
        exists [Store.VStr "z"; Store.VStr "w"]. split; [reflexivity|].
        exists nothing, nothing.
        repeat match goal with |- _ /\ _ => split end;
          try reflexivity; try exact I; try sets.
        exists nothing, nothing.
        repeat match goal with |- _ /\ _ => split end;
          try reflexivity; try exact I; sets.
      * exact I.
      * sets.
      * sets.
      * sets.
    + sets.
    + sets.
    + sets.
  - intros l ->. simpl. lia.
  - simpl. lia.
Defined.

End StoreLoopFacts.

(** ** The splitter on the store: the tokens given, after the call *)

Module InPlace.

Import Refinement RefinementFacts.



Section Prefix.

Variable fuel : nat.
Variable split : Store.value -> Z -> Store.M Store.split_result.
Variable s : Z.
Variable e : num.
Variable h : Store.heap.
Variable rvs : list Store.value.


End Prefix.


Section Runs.

Variable fuel : nat.
Variable message : string.
Variable h : Store.heap.
Variable A : own.
Hypothesis bounded_A : bounded h A.




End Runs.



End InPlace.
